(* Verification of the invite-code engine of Linke
   (internal/model/invite_code.go, internal/migration/migration.go
   [service part: InviteCodeService], internal/service/auth.go,
   internal/handler/invite_code.go).

   The gorm store is modelled as a record of tables (lists ordered by
   primary key); failures of the store and of the other collaborators are
   explicit fault flags, so that every path of the Go code is reachable. *)

From Stdlib Require Import List String Ascii ZArith Bool Lia.
From Stdlib Require Import Strings.Byte.
Import ListNotations.
Open Scope string_scope.
Open Scope Z_scope.

(* ------------------------------------------------------------------ *)
(** * Data model (internal/model) *)

(** model.InviteCode; [DeletedAt_Valid] is [DeletedAt.Valid] (soft delete). *)
Record InviteCode := mkInviteCode {
  ic_ID : nat;
  Code : string;
  CreatedByID : nat;
  Status : string;
  MaxUses : Z;
  UsedCount : Z;
  Description : string;
  DeletedAt_Valid : bool
}.

(** model.InviteCodeUsage (timestamps left out). *)
Record InviteCodeUsage := mkInviteCodeUsage {
  usage_ID : nat;
  InviteCodeID : nat;
  UsedByID : nat;
  IPAddress : string;
  UserAgent : string
}.

(** model.User, the fields written by AuthService.Register. *)
Record User := mkUser {
  user_ID : nat;
  Email : string;
  InviteCodeIDField : option nat;      (* User.InviteCodeID, a pointer to uint *)
  InviteCodeUsed : option string       (* User.InviteCodeUsed, a pointer to string *)
}.

Definition InviteCodeStatusActive : string := "active".
Definition InviteCodeStatusUsed : string := "used".
Definition InviteCodeStatusDisabled : string := "disabled".

(** InviteCode.IsActive *)
Definition IsActive (ic : InviteCode) : bool :=
  if negb (String.eqb (Status ic) InviteCodeStatusActive) then false
  else if UsedCount ic >=? MaxUses ic then false
  else true.

(** InviteCode.IsExhausted *)
Definition IsExhausted (ic : InviteCode) : bool := UsedCount ic >=? MaxUses ic.

(** InviteCode.IsDeleted *)
Definition IsDeleted (ic : InviteCode) : bool := DeletedAt_Valid ic.

(** InviteCode.CanBeUsed *)
Definition CanBeUsed (ic : InviteCode) : bool := IsActive ic && negb (IsDeleted ic).

(* ------------------------------------------------------------------ *)
(** * The store *)

(** The database: the tables invite_codes, invite_code_usages and users.
    Rows are kept in primary-key order. Invite codes and their usages are
    never physically removed, so the auto-increment key of a new row of
    these tables is the table length plus one. Users can be hard-deleted
    (UserService.HardDeleteUser) and MySQL never hands out a key twice, so
    the users table carries its AUTO_INCREMENT counter
    [users_auto_increment]: the key the next inserted user receives. *)
Record DB := mkDB {
  invite_codes : list InviteCode;
  invite_code_usages : list InviteCodeUsage;
  users : list User;
  users_auto_increment : nat
}.

Definition empty_db : DB := mkDB [] [] [] 1.

(** [db.Where("code = ?", code).First(&ic)]: the default gorm scope skips
    soft-deleted rows; the first row in key order is returned. *)
Definition first_by_code (db : DB) (code : string) : option InviteCode :=
  find (fun ic => String.eqb (Code ic) code && negb (DeletedAt_Valid ic))
       (invite_codes db).

(** [db.First(&ic, id)] (scoped as well). *)
Definition first_by_id (db : DB) (id : nat) : option InviteCode :=
  find (fun ic => Nat.eqb (ic_ID ic) id && negb (DeletedAt_Valid ic))
       (invite_codes db).

(** [db.Save(&ic)] for a row with a primary key: every column of the row
    with that key is overwritten. *)
Definition save_code (db : DB) (ic : InviteCode) : DB :=
  mkDB (map (fun r => if Nat.eqb (ic_ID r) (ic_ID ic) then ic else r)
            (invite_codes db))
       (invite_code_usages db) (users db) (users_auto_increment db).

(** [db.Create(&ic)] on invite_codes: the unique index on [code] covers
    soft-deleted rows too; on success the row gets the next key. *)
Definition create_code (db : DB) (ic : InviteCode) : option (InviteCode * DB) :=
  if existsb (fun r => String.eqb (Code r) (Code ic)) (invite_codes db) then None
  else
    let ic' := mkInviteCode (S (List.length (invite_codes db))) (Code ic)
                 (CreatedByID ic) (Status ic) (MaxUses ic) (UsedCount ic)
                 (Description ic) (DeletedAt_Valid ic) in
    Some (ic', mkDB (invite_codes db ++ [ic']) (invite_code_usages db) (users db)
                    (users_auto_increment db)).

(** [db.Create(usage)] on invite_code_usages. *)
Definition create_usage (db : DB) (u : InviteCodeUsage) : InviteCodeUsage * DB :=
  let u' := mkInviteCodeUsage (S (List.length (invite_code_usages db)))
              (InviteCodeID u) (UsedByID u) (IPAddress u) (UserAgent u) in
  (u', mkDB (invite_codes db) (invite_code_usages db ++ [u']) (users db)
            (users_auto_increment db)).

(** [db.Delete(&model.InviteCode{}, id)]: soft delete of the live row. *)
Definition soft_delete_code (db : DB) (id : nat) : DB :=
  mkDB (map (fun r => if Nat.eqb (ic_ID r) id && negb (DeletedAt_Valid r)
                      then mkInviteCode (ic_ID r) (Code r) (CreatedByID r)
                             (Status r) (MaxUses r) (UsedCount r)
                             (Description r) true
                      else r) (invite_codes db))
       (invite_code_usages db) (users db) (users_auto_increment db).

(** A gorm transaction: writes go to [tx_pending]; Rollback returns the
    state the transaction began on, Commit installs the pending state. *)
Record Tx := mkTx { tx_base : DB; tx_pending : DB }.

Definition tx_begin (db : DB) : Tx := mkTx db db.
Definition tx_save (tx : Tx) (ic : InviteCode) : Tx :=
  mkTx (tx_base tx) (save_code (tx_pending tx) ic).
Definition tx_create_usage (tx : Tx) (u : InviteCodeUsage) : Tx :=
  mkTx (tx_base tx) (snd (create_usage (tx_pending tx) u)).
Definition tx_rollback (tx : Tx) : DB := tx_base tx.
Definition tx_commit (tx : Tx) : DB := tx_pending tx.

(* ------------------------------------------------------------------ *)
(** * Errors and faults *)

(** The errors returned by InviteCodeService (fmt.Errorf messages). *)
Inductive ServiceError :=
| ErrNotFound            (* "invite code not found" *)
| ErrGetFailed           (* "failed to get invite code: ..." *)
| ErrExhausted           (* "invite code has reached maximum uses" *)
| ErrNotActive           (* "invite code is not active" *)
| ErrUpdateFailed        (* "failed to update invite code: ..." *)
| ErrUsageFailed         (* "failed to create usage record: ..." *)
| ErrCommitFailed        (* "failed to commit transaction: ..." *)
| ErrRandFailed          (* "failed to generate random bytes: ..." *)
| ErrCreateFailed        (* "failed to create invite code: ..." *)
| ErrStatusUpdateFailed  (* "failed to update invite code status: ..." *)
| ErrDeleteFailed.       (* "failed to delete invite code: ..." *)

Inductive result (A : Type) :=
| Ok : A -> result A
| Err : ServiceError -> result A.
Arguments Ok {A} _.
Arguments Err {A} _.

(** Failures of the store calls of one InviteCodeService call. *)
Record StoreFaults := mkStoreFaults {
  read_fails : bool;     (* the SELECT fails with an error other than not-found *)
  save_fails : bool;     (* tx.Save *)
  usage_fails : bool;    (* tx.Create(usage) *)
  commit_fails : bool    (* tx.Commit *)
}.

Definition no_faults : StoreFaults := mkStoreFaults false false false false.

(* ------------------------------------------------------------------ *)
(** * InviteCodeService *)

(** GetInviteCodeByCode *)
Definition GetInviteCodeByCode (f : StoreFaults) (db : DB) (code : string)
  : result InviteCode :=
  if read_fails f then Err ErrGetFailed
  else match first_by_code db code with
       | Some ic => Ok ic
       | None => Err ErrNotFound
       end.

(** ValidateInviteCode *)
Definition ValidateInviteCode (f : StoreFaults) (db : DB) (code : string)
  : result InviteCode :=
  match GetInviteCodeByCode f db code with
  | Err e => Err e
  | Ok ic =>
      if negb (CanBeUsed ic) then
        if IsExhausted ic then Err ErrExhausted else Err ErrNotActive
      else Ok ic
  end.

(** Steps after the read in UseInviteCode: increment, status flip. *)
Definition bump (ic : InviteCode) : InviteCode :=
  let n := UsedCount ic + 1 in
  mkInviteCode (ic_ID ic) (Code ic) (CreatedByID ic)
    (if n >=? MaxUses ic then InviteCodeStatusUsed else Status ic)
    (MaxUses ic) n (Description ic) (DeletedAt_Valid ic).

(** The part of UseInviteCode that runs on the transaction [tx], given the
    row [ic] that ValidateInviteCode returned: Save, Create(usage), Commit. *)
Definition use_write (f : StoreFaults) (tx : Tx) (ic : InviteCode)
    (userID : nat) (ipAddress userAgent : string) : result InviteCode * DB :=
  let ic' := bump ic in
  if save_fails f then (Err ErrUpdateFailed, tx_rollback tx) else
  let tx := tx_save tx ic' in
  let usage := mkInviteCodeUsage 0 (ic_ID ic') userID ipAddress userAgent in
  if usage_fails f then (Err ErrUsageFailed, tx_rollback tx) else
  let tx := tx_create_usage tx usage in
  if commit_fails f then (Err ErrCommitFailed, tx_rollback tx) else
  (Ok ic', tx_commit tx).

(** UseInviteCode: the transaction is begun first, but the row is read by
    ValidateInviteCode through [s.db], outside the transaction and without
    a lock. *)
Definition UseInviteCode (f : StoreFaults) (db : DB) (code : string)
    (userID : nat) (ipAddress userAgent : string) : result InviteCode * DB :=
  let tx := tx_begin db in
  match ValidateInviteCode f db code with
  | Err e => (Err e, tx_rollback tx)
  | Ok ic => use_write f tx ic userID ipAddress userAgent
  end.

(** UpdateInviteCodeStatus: the status string is stored as given. *)
Definition UpdateInviteCodeStatus (f : StoreFaults) (db : DB) (id : nat)
    (status : string) : result InviteCode * DB :=
  if read_fails f then (Err ErrGetFailed, db) else
  match first_by_id db id with
  | None => (Err ErrNotFound, db)
  | Some ic =>
      let ic' := mkInviteCode (ic_ID ic) (Code ic) (CreatedByID ic) status
                   (MaxUses ic) (UsedCount ic) (Description ic)
                   (DeletedAt_Valid ic) in
      if save_fails f then (Err ErrStatusUpdateFailed, db)
      else (Ok ic', save_code db ic')
  end.

(** DeleteInviteCode (soft delete); [RowsAffected == 0] is not-found. *)
Definition DeleteInviteCode (f : StoreFaults) (db : DB) (id : nat)
  : result unit * DB :=
  if save_fails f then (Err ErrDeleteFailed, db) else
  match first_by_id db id with
  | None => (Err ErrNotFound, db)
  | Some _ => (Ok tt, soft_delete_code db id)
  end.

(** encoding/hex: [hextable] and EncodeToString. *)
Definition hextable : string := "0123456789abcdef".

Definition hex_digit (n : nat) : ascii :=
  match String.get n hextable with Some c => c | None => "0"%char end.

Fixpoint EncodeToString (bs : list byte) : string :=
  match bs with
  | [] => EmptyString
  | b :: rest =>
      let v := Byte.to_nat b in
      String (hex_digit (Nat.div v 16)) (String (hex_digit (Nat.modulo v 16))
        (EncodeToString rest))
  end.

(** GenerateInviteCode. Each element of [draws] is the outcome of one
    [rand.Read] of 16 bytes ([None]: the read failed); the recursive call on
    a collision consumes the next draw. The result is [None] when the
    recursion has not returned within the given draws. The existence check
    is [s.db.Where("code = ?", code).First(...)], i.e. [first_by_code]. *)
Fixpoint GenerateInviteCode (db : DB) (draws : list (option (list byte)))
  : option (result string) :=
  match draws with
  | [] => None
  | None :: _ => Some (Err ErrRandFailed)
  | Some bytes :: rest =>
      let code := EncodeToString bytes in
      match first_by_code db code with
      | Some _ => GenerateInviteCode db rest
      | None => Some (Ok code)
      end
  end.

(** CreateInviteCodeRequest *)
Record CreateInviteCodeRequest := mkCreateInviteCodeRequest {
  req_MaxUses : Z;
  req_Description : string
}.

(** CreateInviteCode (service). [insert_fails] is a store failure of the
    INSERT; the unique index on [code] is checked by [create_code]. *)
Definition CreateInviteCode (draws : list (option (list byte)))
    (insert_fails : bool) (db : DB) (createdByID : nat)
    (req : CreateInviteCodeRequest) : option (result InviteCode * DB) :=
  match GenerateInviteCode db draws with
  | None => None
  | Some (Err _) => Some (Err ErrCreateFailed, db)
  | Some (Ok code) =>
      let ic := mkInviteCode 0 code createdByID InviteCodeStatusActive
                  (req_MaxUses req) 0 (req_Description req) false in
      if insert_fails then Some (Err ErrCreateFailed, db) else
      match create_code db ic with
      | None => Some (Err ErrCreateFailed, db)
      | Some (ic', db') => Some (Ok ic', db')
      end
  end.

(* ------------------------------------------------------------------ *)
(** * HTTP handlers (internal/handler/invite_code.go) *)

(** The responses the handlers produce. *)
Inductive Response :=
| RespUnauthorized
| RespBindingError            (* response.BadRequest(c, err) after ShouldBindJSON *)
| RespBadRequest (e : ServiceError)
| RespNotFound
| RespForbidden
| RespInternalServerError
| RespCreated (ic : InviteCode)
| RespSuccess (ic : InviteCode).

(** The authenticated user in the gin context. *)
Record AuthUser := mkAuthUser { auth_ID : nat; auth_IsAdmin : bool }.

(** [utf8.RuneCountInString]: the length of the first rune of [String c
    rest] in bytes, as the decoding loop of the Go library computes it
    (tables [first] and [acceptRanges]); an invalid or short sequence
    counts as one byte. *)
Definition in_range (lo hi : nat) (c : ascii) : bool :=
  Nat.leb lo (nat_of_ascii c) && Nat.leb (nat_of_ascii c) hi.

Definition first_rune_size (c : ascii) (rest : string) : nat :=
  let b := nat_of_ascii c in
  let info :=
    if Nat.ltb b 128 then None
    else if Nat.ltb b 194 then None                        (* 0x80-0xC1: xx *)
    else if Nat.ltb b 224 then Some (2%nat, 128%nat, 191%nat)  (* s1 *)
    else if Nat.eqb b 224 then Some (3%nat, 160%nat, 191%nat)  (* s2 *)
    else if Nat.eqb b 237 then Some (3%nat, 128%nat, 159%nat)  (* s4 *)
    else if Nat.ltb b 240 then Some (3%nat, 128%nat, 191%nat)  (* s3 *)
    else if Nat.eqb b 240 then Some (4%nat, 144%nat, 191%nat)  (* s5 *)
    else if Nat.ltb b 244 then Some (4%nat, 128%nat, 191%nat)  (* s6 *)
    else if Nat.eqb b 244 then Some (4%nat, 128%nat, 143%nat)  (* s7 *)
    else None in                                           (* 0xF5-0xFF: xx *)
  match info with
  | None => 1
  | Some (size, lo, hi) =>
      if Nat.ltb (String.length rest) (size - 1) then 1 else
      match rest with
      | String c1 rest1 =>
          if negb (in_range lo hi c1) then 1
          else if Nat.eqb size 2 then 2 else
          match rest1 with
          | String c2 rest2 =>
              if negb (in_range 128 191 c2) then 1
              else if Nat.eqb size 3 then 3 else
              match rest2 with
              | String c3 _ => if negb (in_range 128 191 c3) then 1 else 4
              | EmptyString => 1
              end
          | EmptyString => 1
          end
      | EmptyString => 1
      end
  end.

Fixpoint rune_count (fuel : nat) (s : string) : nat :=
  match fuel, s with
  | O, _ => O
  | _, EmptyString => O
  | S fuel', String c rest =>
      S (rune_count fuel' (substring (first_rune_size c rest - 1)
                                      (String.length rest) rest))
  end.

(** [utf8.RuneCountInString]; each round consumes at least one byte. *)
Definition RuneCountInString (s : string) : nat := rune_count (String.length s) s.

(** The binding tags of CreateInviteCodeRequest: [min=1,max=100] on
    [max_uses], [max=255] on [description]; the validator measures a
    string in runes ([utf8.RuneCountInString]). *)
Definition bind_create_request (req : CreateInviteCodeRequest) : bool :=
  (1 <=? req_MaxUses req) && (req_MaxUses req <=? 100)
  && Nat.leb (RuneCountInString (req_Description req)) 255.

(** InviteCodeHandler.CreateInviteCode *)
Definition CreateInviteCodeHandler (draws : list (option (list byte)))
    (insert_fails : bool) (db : DB) (user : option AuthUser)
    (req : CreateInviteCodeRequest) : option (Response * DB) :=
  match user with
  | None => Some (RespUnauthorized, db)
  | Some u =>
      if negb (bind_create_request req) then Some (RespBindingError, db) else
      match CreateInviteCode draws insert_fails db (auth_ID u) req with
      | None => None
      | Some (Err e, db') => Some (RespBadRequest e, db')
      | Some (Ok ic, db') => Some (RespCreated ic, db')
      end
  end.

(** The binding tag [required,oneof=active disabled] on [status]. *)
Definition bind_status (status : string) : bool :=
  String.eqb status "active" || String.eqb status "disabled".

(** InviteCodeHandler.UpdateInviteCodeStatus: [fget] are the faults of
    the ownership lookup (GetInviteCodeByID), [fupd] those of the update. *)
Definition UpdateInviteCodeStatusHandler (fget fupd : StoreFaults) (db : DB)
    (user : option AuthUser) (id : nat) (status : string) : Response * DB :=
  match user with
  | None => (RespUnauthorized, db)
  | Some u =>
      if negb (bind_status status) then (RespBindingError, db) else
      match (if read_fails fget then None else first_by_id db id) with
      | None => (RespNotFound, db)
      | Some ic =>
          if negb (Nat.eqb (CreatedByID ic) (auth_ID u)) && negb (auth_IsAdmin u)
          then (RespForbidden, db)
          else match UpdateInviteCodeStatus fupd db id status with
               | (Err _, db') => (RespInternalServerError, db')
               | (Ok ic', db') => (RespSuccess ic', db')
               end
      end
  end.

(* ------------------------------------------------------------------ *)
(** * AuthService.Register (internal/service/auth.go) *)

Record RegisterRequest := mkRegisterRequest {
  reg_Email : string;
  reg_Password : string;
  reg_InviteCode : string
}.

(** Failures of the collaborators of Register other than the invite-code
    service: bcrypt, UserService.CreateUser, JWTService.GenerateToken. *)
Record AuthFaults := mkAuthFaults {
  hash_fails : bool;
  create_user_fails : bool;
  token_fails : bool
}.

Inductive RegisterError :=
| RegInvalidInviteCode (e : ServiceError)  (* "invalid invite code: ..." *)
| RegUserExists                            (* "user with email ... already exists" *)
| RegPasswordFailed                        (* "failed to process password" *)
| RegCreateUserFailed                      (* "failed to create user account" *)
| RegTokenFailed.                          (* "failed to generate authentication token" *)

Inductive RegisterResult :=
| RegOk (u : User)
| RegErr (e : RegisterError).

(** UserService.GetUserByEmail *)
Definition GetUserByEmail (db : DB) (email : string) : option User :=
  find (fun u => String.eqb (Email u) email) (users db).

(** UserService.CreateUser: the row gets the value of the AUTO_INCREMENT
    counter as its key, and the counter moves past it. A failed INSERT is
    modelled as writing nothing; MySQL may still use up a counter value
    then, which only changes the keys later users receive. *)
Definition CreateUser (db : DB) (u : User) : User * DB :=
  let u' := mkUser (users_auto_increment db) (Email u)
              (InviteCodeIDField u) (InviteCodeUsed u) in
  (u', mkDB (invite_codes db) (invite_code_usages db) (users db ++ [u'])
            (S (users_auto_increment db))).

(** Register. [fv] are the store faults of the initial ValidateInviteCode,
    [fu] those of the later UseInviteCode; the username generation only
    reads and is left out. *)
Definition Register (fa : AuthFaults) (fv fu : StoreFaults) (db : DB)
    (req : RegisterRequest) : RegisterResult * DB :=
  let validated :=
    if String.eqb (reg_InviteCode req) "" then Ok None
    else match ValidateInviteCode fv db (reg_InviteCode req) with
         | Err e => Err e
         | Ok ic => Ok (Some ic)
         end in
  match validated with
  | Err e => (RegErr (RegInvalidInviteCode e), db)
  | Ok inviteCode =>
      match GetUserByEmail db (reg_Email req) with
      | Some _ => (RegErr RegUserExists, db)
      | None =>
          if hash_fails fa then (RegErr RegPasswordFailed, db) else
          let user := mkUser 0 (reg_Email req)
                        (option_map ic_ID inviteCode)
                        (option_map Code inviteCode) in
          if create_user_fails fa then (RegErr RegCreateUserFailed, db) else
          let '(user, db1) := CreateUser db user in
          let db2 :=
            match inviteCode with
            | None => db1
            | Some ic =>
                (* the error of UseInviteCode is only logged *)
                snd (UseInviteCode fu db1 (Code ic) (user_ID user)
                       "unknown" "unknown")
            end in
          if token_fails fa then (RegErr RegTokenFailed, db2)
          else (RegOk user, db2)
      end
  end.

(* ------------------------------------------------------------------ *)
(** * Concurrent redemptions

    Each request runs on its own goroutine and shares only the database.
    A UseInviteCode call has two phases: the read of ValidateInviteCode
    (through [s.db], no lock) and the transactional write phase (Save,
    Create(usage), Commit), which is taken as one atomic step: a finer
    interleaving of the write phase only adds behaviours. *)

Record Redeemer := mkRedeemer {
  rd_code : string;
  rd_userID : nat
}.

Inductive Thread :=
| Fresh (r : Redeemer)
| HasRead (r : Redeemer) (ic : InviteCode)
| Finished (res : result InviteCode).

(** One scheduling step of thread [i]. *)
Definition step_thread (db : DB) (t : Thread) : Thread * DB :=
  match t with
  | Fresh r =>
      match ValidateInviteCode no_faults db (rd_code r) with
      | Err e => (Finished (Err e), db)
      | Ok ic => (HasRead r ic, db)
      end
  | HasRead r ic =>
      let '(res, db') := use_write no_faults (tx_begin db) ic (rd_userID r)
                           "unknown" "unknown" in
      (Finished res, db')
  | Finished res => (Finished res, db)
  end.

Fixpoint update_nth {A} (n : nat) (x : A) (l : list A) : list A :=
  match l, n with
  | [], _ => []
  | _ :: tl, O => x :: tl
  | y :: tl, S n' => y :: update_nth n' x tl
  end.

(** Run a schedule: a list of thread indices. *)
Fixpoint run_schedule (sched : list nat) (ts : list Thread) (db : DB)
  : list Thread * DB :=
  match sched with
  | [] => (ts, db)
  | i :: rest =>
      match nth_error ts i with
      | None => run_schedule rest ts db
      | Some t =>
          let '(t', db') := step_thread db t in
          run_schedule rest (update_nth i t' ts) db'
      end
  end.

Definition is_success (t : Thread) : bool :=
  match t with Finished (Ok _) => true | _ => false end.

Definition is_exhausted (t : Thread) : bool :=
  match t with Finished (Err ErrExhausted) => true | _ => false end.

Definition count_successes (ts : list Thread) : nat :=
  List.length (filter is_success ts).

Definition count_exhausted (ts : list Thread) : nat :=
  List.length (filter is_exhausted ts).

(** Number of ledger rows referencing the code with key [id]. *)
Definition ledger_count (db : DB) (id : nat) : nat :=
  List.length (filter (fun u => Nat.eqb (InviteCodeID u) id) (invite_code_usages db)).

(* ------------------------------------------------------------------ *)
(** * Sequences of core operations *)

Inductive Op :=
| OpCreate (draws : list (option (list byte))) (insert_fails : bool)
           (user : option AuthUser) (req : CreateInviteCodeRequest)
| OpRedeem (f : StoreFaults) (code : string) (userID : nat) (ip ua : string)
| OpUpdateStatus (f : StoreFaults) (id : nat) (status : string)
| OpDelete (f : StoreFaults) (id : nat).

(** A creation whose generation does not return leaves the store as it
    was: GenerateInviteCode writes nothing. *)
Definition exec_op (db : DB) (op : Op) : DB :=
  match op with
  | OpCreate draws fails user req =>
      match CreateInviteCodeHandler draws fails db user req with
      | Some (_, db') => db'
      | None => db
      end
  | OpRedeem f code userID ip ua => snd (UseInviteCode f db code userID ip ua)
  | OpUpdateStatus f id status => snd (UpdateInviteCodeStatus f db id status)
  | OpDelete f id => snd (DeleteInviteCode f db id)
  end.

Definition run_ops (ops : list Op) (db : DB) : DB := fold_left exec_op ops db.

(** The counter invariant of every row. *)
Definition counts_ok (ic : InviteCode) : Prop := 0 <= UsedCount ic <= MaxUses ic.
Definition inv (db : DB) : Prop := Forall counts_ok (invite_codes db).

(** Lowercase hexadecimal characters. *)
Definition is_lower_hex (c : ascii) : bool :=
  existsb (Ascii.eqb c) (list_ascii_of_string hextable).

(* ------------------------------------------------------------------ *)
(** * Lemmas *)

Create HintDb invite.

Lemma first_by_code_some db code ic :
  first_by_code db code = Some ic ->
  In ic (invite_codes db) /\ Code ic = code /\ DeletedAt_Valid ic = false.
Proof.
  unfold first_by_code; intros H.
  apply find_some in H as [Hin Hp].
  apply andb_prop in Hp as [Hc Hd].
  apply String.eqb_eq in Hc. apply negb_true_iff in Hd. auto.
Qed.

Lemma first_by_code_none db code :
  (forall r, In r (invite_codes db) -> Code r = code -> DeletedAt_Valid r = true) <->
  first_by_code db code = None.
Proof.
  unfold first_by_code; split.
  - intros H. destruct (find _ _) as [r|] eqn:E; [|reflexivity].
    apply find_some in E as [Hin Hp].
    apply andb_prop in Hp as [Hc Hd].
    apply String.eqb_eq in Hc. rewrite (H r Hin Hc) in Hd. discriminate.
  - intros H r Hin Hc. eapply find_none in H; [|exact Hin].
    simpl in H. rewrite Hc, String.eqb_refl in H. simpl in H.
    destruct (DeletedAt_Valid r); [reflexivity|discriminate].
Qed.

Lemma CanBeUsed_true ic :
  CanBeUsed ic = true <->
  Status ic = InviteCodeStatusActive /\ UsedCount ic < MaxUses ic /\
  DeletedAt_Valid ic = false.
Proof.
  unfold CanBeUsed, IsActive, IsDeleted.
  destruct (String.eqb (Status ic) InviteCodeStatusActive) eqn:Es;
  destruct (UsedCount ic >=? MaxUses ic) eqn:Eu;
  destruct (DeletedAt_Valid ic); simpl;
  rewrite ?String.eqb_eq, ?String.eqb_neq in Es;
  rewrite Z.geb_leb in Eu; rewrite ?Z.leb_gt, ?Z.leb_le in Eu;
  split; intros; try discriminate; try reflexivity;
  try (destruct H as (? & ? & ?)); try lia; try congruence; auto.
Qed.

Lemma ValidateInviteCode_ok f db code ic :
  ValidateInviteCode f db code = Ok ic ->
  read_fails f = false /\ first_by_code db code = Some ic /\ CanBeUsed ic = true.
Proof.
  unfold ValidateInviteCode, GetInviteCodeByCode.
  destruct (read_fails f); [discriminate|].
  destruct (first_by_code db code) as [r|]; [|discriminate].
  destruct (CanBeUsed r) eqn:E; simpl;
  [intros H; injection H as <-; auto | destruct (IsExhausted r); discriminate].
Qed.

Lemma UseInviteCode_err_db f db code u ip ua e db' :
  UseInviteCode f db code u ip ua = (Err e, db') -> db' = db.
Proof.
  unfold UseInviteCode, use_write.
  destruct (ValidateInviteCode f db code) as [ic|e0].
  - destruct (save_fails f), (usage_fails f), (commit_fails f); simpl;
    intros H; injection H; auto; discriminate.
  - intros H; injection H; auto.
Qed.

(* ------------------------------------------------------------------ *)
(** * C2: a redemption commits the counter update and one ledger row
    together, or changes nothing *)

(** C2. Every UseInviteCode call either fails, and then the store (the
    invite_codes row and the ledger) is exactly as before, or succeeds,
    and then the row read by the call is saved with [usedCount + 1] (and
    the status flip of [bump]) and exactly one ledger row referencing that
    code and that user is appended; neither write happens without the
    other. *)
Theorem UseInviteCode_all_or_nothing f db code userID ip ua :
  match UseInviteCode f db code userID ip ua with
  | (Err _, db') => db' = db
  | (Ok ic', db') =>
      exists ic u,
        first_by_code db code = Some ic /\ ic' = bump ic /\
        UsedCount ic' = UsedCount ic + 1 /\
        invite_codes db' = invite_codes (save_code db ic') /\
        invite_code_usages db' = (invite_code_usages db ++ [u])%list /\
        InviteCodeID u = ic_ID ic /\ UsedByID u = userID /\
        users db' = users db
  end.
Proof.
  destruct (UseInviteCode f db code userID ip ua) as [[ic'|e] db'] eqn:E.
  - revert E; unfold UseInviteCode.
    destruct (ValidateInviteCode f db code) as [ic|e] eqn:V; [|discriminate].
    apply ValidateInviteCode_ok in V as (_ & Hfind & _).
    unfold use_write.
    destruct (save_fails f), (usage_fails f), (commit_fails f);
      simpl; try discriminate.
    intros H; injection H as <- <-.
    eexists ic, _; repeat split; eauto.
  - eapply UseInviteCode_err_db; eauto.
Qed.

(* ------------------------------------------------------------------ *)
(** * C4: which error a rejected redemption returns *)

Lemma save_code_first_by_code db code ic ic' :
  first_by_code db code = Some ic -> ic_ID ic' = ic_ID ic ->
  Code ic' = code -> DeletedAt_Valid ic' = false ->
  first_by_code (save_code db ic') code = Some ic'.
Proof.
  unfold first_by_code, save_code; simpl.
  induction (invite_codes db) as [|r rs IH]; simpl; [discriminate|].
  intros Hf Hid Hc Hd.
  destruct (Nat.eqb (ic_ID r) (ic_ID ic')) eqn:Er; simpl.
  - rewrite Hc, String.eqb_refl, Hd. reflexivity.
  - destruct (String.eqb (Code r) code && negb (DeletedAt_Valid r)) eqn:Ep.
    + injection Hf as <-. rewrite Hid, Nat.eqb_refl in Er. discriminate.
    + apply IH; auto.
Qed.

(** C4. With the lookup itself succeeding (no store error), a rejected
    redemption returns: NotFound when no live row has the code (absent or
    soft-deleted); Exhausted when [usedCount >= maxUses], whatever the
    status; the not-active error (the one error the code has for an
    inactive or disabled code) when the status is not active and uses
    remain; the store is unchanged in each case. In particular, after
    UpdateInviteCodeStatus(id, "disabled") on an active unused code,
    redeeming it returns the not-active error and its usedCount stays 0. *)
Theorem redemption_error_selection f db code userID ip ua :
  read_fails f = false ->
  ((forall r, In r (invite_codes db) -> Code r = code -> DeletedAt_Valid r = true) ->
     UseInviteCode f db code userID ip ua = (Err ErrNotFound, db)) /\
  (forall ic, first_by_code db code = Some ic -> MaxUses ic <= UsedCount ic ->
     UseInviteCode f db code userID ip ua = (Err ErrExhausted, db)) /\
  (forall ic, first_by_code db code = Some ic -> UsedCount ic < MaxUses ic ->
     Status ic <> InviteCodeStatusActive ->
     UseInviteCode f db code userID ip ua = (Err ErrNotActive, db)) /\
  (forall ic fs, first_by_code db code = Some ic -> first_by_id db (ic_ID ic) = Some ic ->
     Status ic = InviteCodeStatusActive -> UsedCount ic = 0 -> 1 <= MaxUses ic ->
     read_fails fs = false -> save_fails fs = false ->
     let db1 := snd (UpdateInviteCodeStatus fs db (ic_ID ic) InviteCodeStatusDisabled) in
     UseInviteCode f db1 code userID ip ua = (Err ErrNotActive, db1) /\
     exists ic1, first_by_code db1 code = Some ic1 /\
       Status ic1 = InviteCodeStatusDisabled /\ UsedCount ic1 = 0).
Proof.
  intros Hr.
  assert (Hrej : forall d ic, first_by_code d code = Some ic -> CanBeUsed ic = false ->
            UseInviteCode f d code userID ip ua =
            (if IsExhausted ic then Err ErrExhausted else Err ErrNotActive, d)).
  { intros d ic Hf Hc. unfold UseInviteCode, ValidateInviteCode, GetInviteCodeByCode.
    rewrite Hr, Hf, Hc. simpl. destruct (IsExhausted ic); reflexivity. }
  assert (Hno : forall ic, UsedCount ic < MaxUses ic -> Status ic <> InviteCodeStatusActive ->
            CanBeUsed ic = false /\ IsExhausted ic = false).
  { intros ic H1 H2. split.
    - destruct (CanBeUsed ic) eqn:E; [|reflexivity].
      apply CanBeUsed_true in E. tauto.
    - unfold IsExhausted. rewrite Z.geb_leb. apply Z.leb_gt. lia. }
  split; [|split; [|split]].
  - intros H. apply first_by_code_none in H.
    unfold UseInviteCode, ValidateInviteCode, GetInviteCodeByCode.
    rewrite Hr, H. reflexivity.
  - intros ic Hf Hx. rewrite (Hrej db ic Hf).
    2:{ destruct (CanBeUsed ic) eqn:E; [apply CanBeUsed_true in E; lia|reflexivity]. }
    unfold IsExhausted. rewrite Z.geb_leb. apply Z.leb_le in Hx. rewrite Hx. reflexivity.
  - intros ic Hf H1 H2. destruct (Hno ic H1 H2) as [Hc He].
    rewrite (Hrej db ic Hf Hc), He. reflexivity.
  - intros ic fs Hf Hid Hs H0 Hm Hfr Hfs db1.
    set (ic1 := mkInviteCode (ic_ID ic) (Code ic) (CreatedByID ic) InviteCodeStatusDisabled
                  (MaxUses ic) (UsedCount ic) (Description ic) (DeletedAt_Valid ic)).
    assert (Hdb1 : db1 = save_code db ic1).
    { unfold db1, UpdateInviteCodeStatus. rewrite Hfr, Hid, Hfs. reflexivity. }
    destruct (first_by_code_some _ _ _ Hf) as (_ & Hc & Hd).
    assert (Hf1 : first_by_code db1 code = Some ic1).
    { rewrite Hdb1. apply (save_code_first_by_code _ _ ic); auto. }
    split.
    + destruct (Hno ic1) as [Hc1 He1]; simpl; [lia|discriminate|].
      rewrite (Hrej db1 ic1 Hf1 Hc1), He1. reflexivity.
    + exists ic1. auto.
Qed.

(* ------------------------------------------------------------------ *)
(** * C3: the counter invariant *)

Lemma UseInviteCode_ok_shape f db code userID ip ua ic' db' :
  UseInviteCode f db code userID ip ua = (Ok ic', db') ->
  exists ic, ValidateInviteCode f db code = Ok ic /\ ic' = bump ic /\
    db' = snd (create_usage (save_code db ic')
                (mkInviteCodeUsage 0 (ic_ID ic') userID ip ua)).
Proof.
  unfold UseInviteCode, use_write.
  destruct (ValidateInviteCode f db code) as [ic|e]; [|discriminate].
  destruct (save_fails f), (usage_fails f), (commit_fails f);
    simpl; try discriminate.
  intros H; injection H as <- <-. eauto.
Qed.

Lemma inv_save db ic : inv db -> counts_ok ic -> inv (save_code db ic).
Proof.
  unfold inv, save_code; simpl; intros H Hc.
  apply Forall_map. eapply Forall_impl; [|exact H].
  intros r Hr. destruct (Nat.eqb _ _); auto.
Qed.

Lemma inv_create_usage db u : inv (snd (create_usage db u)) <-> inv db.
Proof. reflexivity. Qed.

Lemma inv_soft_delete db id : inv db -> inv (soft_delete_code db id).
Proof.
  unfold inv, soft_delete_code; simpl; intros H.
  apply Forall_map. eapply Forall_impl; [|exact H].
  intros r Hr. destruct (_ && _); auto.
Qed.

Lemma inv_create_code db ic ic' db' :
  inv db -> counts_ok ic -> create_code db ic = Some (ic', db') -> inv db'.
Proof.
  unfold create_code, inv; intros H Hc.
  destruct (existsb _ _); [discriminate|].
  intros E; injection E as <- <-; simpl.
  apply Forall_app; split; auto.
Qed.

#[local] Hint Resolve inv_save inv_soft_delete : invite.

Lemma bump_counts ic :
  CanBeUsed ic = true -> counts_ok ic ->
  counts_ok (bump ic) /\
  (Status (bump ic) = InviteCodeStatusUsed <-> UsedCount (bump ic) = MaxUses (bump ic)).
Proof.
  intros Hc Hk. apply CanBeUsed_true in Hc as (Hs & Hlt & _).
  unfold counts_ok in *; unfold bump; simpl.
  destruct (UsedCount ic + 1 >=? MaxUses ic) eqn:E;
    rewrite Z.geb_leb in E; [apply Z.leb_le in E | apply Z.leb_gt in E];
    (split; [lia|]); split; intros; try lia; try reflexivity.
  rewrite Hs in H. discriminate.
Qed.

Lemma inv_UseInviteCode f db code userID ip ua :
  inv db -> inv (snd (UseInviteCode f db code userID ip ua)).
Proof.
  intros H.
  destruct (UseInviteCode f db code userID ip ua) as [[ic'|e] db'] eqn:E; simpl.
  - apply UseInviteCode_ok_shape in E as (ic & V & -> & ->).
    apply ValidateInviteCode_ok in V as (_ & Hf & Hc).
    apply first_by_code_some in Hf as (Hin & _).
    apply inv_create_usage, inv_save; auto.
    apply bump_counts; auto.
    unfold inv in H; rewrite Forall_forall in H; auto.
  - apply UseInviteCode_err_db in E; subst; auto.
Qed.

Lemma inv_UpdateInviteCodeStatus f db id status :
  inv db -> inv (snd (UpdateInviteCodeStatus f db id status)).
Proof.
  intros H; unfold UpdateInviteCodeStatus.
  destruct (read_fails f); auto.
  destruct (first_by_id db id) as [ic|] eqn:Ef; auto.
  destruct (save_fails f); simpl; auto.
  apply inv_save; auto.
  unfold first_by_id in Ef. apply find_some in Ef as [Hin _].
  unfold inv in H; rewrite Forall_forall in H. apply H in Hin.
  exact Hin.
Qed.

Lemma inv_DeleteInviteCode f db id : inv db -> inv (snd (DeleteInviteCode f db id)).
Proof.
  intros H; unfold DeleteInviteCode.
  destruct (save_fails f); auto.
  destruct (first_by_id db id); simpl; auto with invite.
Qed.

Lemma inv_CreateInviteCodeHandler draws fails db user req r db' :
  inv db -> CreateInviteCodeHandler draws fails db user req = Some (r, db') -> inv db'.
Proof.
  intros H; unfold CreateInviteCodeHandler.
  destruct user as [u|]; [|intros E; injection E as _ <-; auto].
  destruct (bind_create_request req) eqn:B; simpl; [|intros E; injection E as _ <-; auto].
  unfold CreateInviteCode.
  destruct (GenerateInviteCode db draws) as [[code|e]|]; try discriminate;
    [|intros E; injection E as _ <-; auto].
  destruct fails; [intros E; injection E as _ <-; auto|].
  destruct (create_code db _) as [[ic' d]|] eqn:C; [|intros E; injection E as _ <-; auto].
  intros E; injection E as _ <-.
  eapply inv_create_code; [exact H| |exact C].
  unfold bind_create_request in B.
  apply andb_prop in B as [B _]; apply andb_prop in B as [B1 B2].
  apply Z.leb_le in B1; apply Z.leb_le in B2.
  unfold counts_ok; simpl; lia.
Qed.

Lemma inv_exec_op db op : inv db -> inv (exec_op db op).
Proof.
  intros H; destruct op; simpl.
  - destruct (CreateInviteCodeHandler draws insert_fails db user req)
      as [[r db']|] eqn:E; auto.
    eapply inv_CreateInviteCodeHandler; eauto.
  - apply inv_UseInviteCode; auto.
  - apply inv_UpdateInviteCodeStatus; auto.
  - apply inv_DeleteInviteCode; auto.
Qed.

Lemma inv_run_ops ops db : inv db -> inv (run_ops ops db).
Proof.
  unfold run_ops; revert db; induction ops as [|op ops IH]; simpl; auto.
  intros db H; apply IH, inv_exec_op, H.
Qed.

Lemma save_code_in db ic ic' :
  In ic (invite_codes db) -> ic_ID ic' = ic_ID ic -> In ic' (invite_codes (save_code db ic')).
Proof.
  unfold save_code; simpl; intros Hin Hid.
  apply in_map_iff. exists ic. rewrite Hid, Nat.eqb_refl. auto.
Qed.

(** C3. Starting from the empty store, after every sequence of core
    operations (creation through the handler, redemption, status update,
    soft delete; with any store faults), every row satisfies
    [0 <= usedCount <= maxUses]; and a successful redemption on such a
    store returns, and stores, a row with
    [status = used <-> usedCount = maxUses]. *)
Theorem counter_invariant ops :
  inv (run_ops ops empty_db) /\
  forall f code userID ip ua ic db',
    UseInviteCode f (run_ops ops empty_db) code userID ip ua = (Ok ic, db') ->
    (Status ic = InviteCodeStatusUsed <-> UsedCount ic = MaxUses ic) /\
    In ic (invite_codes db').
Proof.
  assert (H : inv (run_ops ops empty_db)) by (apply inv_run_ops; constructor).
  split; auto.
  intros f code userID ip ua ic db' E.
  apply UseInviteCode_ok_shape in E as (ic0 & V & -> & ->).
  apply ValidateInviteCode_ok in V as (_ & Hf & Hc).
  apply first_by_code_some in Hf as (Hin & _).
  split.
  - apply bump_counts; auto.
    unfold inv in H; rewrite Forall_forall in H; auto.
  - simpl. eapply save_code_in; eauto.
Qed.

(* ------------------------------------------------------------------ *)
(** * C5 and C10: Register *)

Lemma UseInviteCode_users f db code userID ip ua :
  users (snd (UseInviteCode f db code userID ip ua)) = users db.
Proof.
  destruct (UseInviteCode f db code userID ip ua) as [[ic'|e] db'] eqn:E; simpl.
  - apply UseInviteCode_ok_shape in E as (ic & _ & _ & ->). reflexivity.
  - apply UseInviteCode_err_db in E; subst; reflexivity.
Qed.

(** C5. When Register is given a non-empty invite code that passes the
    initial ValidateInviteCode, the e-mail is free and password hashing,
    user creation and token issuing succeed, Register returns success
    whatever the later UseInviteCode does (for every fault pattern [fu] of
    that call, including failing ones): the returned user, appended to the
    users table and kept there, carries [inviteCodeID] and
    [inviteCodeUsed] = the code string. *)
Theorem register_keeps_user_when_redemption_fails fa fv db req ic :
  reg_InviteCode req <> "" ->
  ValidateInviteCode fv db (reg_InviteCode req) = Ok ic ->
  GetUserByEmail db (reg_Email req) = None ->
  hash_fails fa = false -> create_user_fails fa = false -> token_fails fa = false ->
  exists u,
    InviteCodeIDField u = Some (ic_ID ic) /\
    InviteCodeUsed u = Some (reg_InviteCode req) /\
    forall fu,
      fst (Register fa fv fu db req) = RegOk u /\
      users (snd (Register fa fv fu db req)) = (users db ++ [u])%list.
Proof.
  intros Hne V He Hh Hc Ht.
  pose proof (ValidateInviteCode_ok _ _ _ _ V) as (_ & Hf & _).
  apply first_by_code_some in Hf as (_ & Hcode & _).
  eexists; split; [|split]; [| |intros fu; unfold Register;
    apply String.eqb_neq in Hne; rewrite Hne, V, He, Hh, Hc, Ht; simpl;
    split; [reflexivity|]; rewrite UseInviteCode_users; reflexivity].
  - reflexivity.
  - simpl. rewrite Hcode. reflexivity.
Qed.

(** C10. When Register is given a non-empty invite code that no live row
    carries (absent or soft-deleted), or whose row is exhausted or not
    active, it returns the invalid-invite-code error before anything is
    written: no user, no ledger row, no change to any invite code. *)
Theorem register_rejects_invalid_code fa fv fu db req :
  reg_InviteCode req <> "" ->
  ((forall r, In r (invite_codes db) -> Code r = reg_InviteCode req ->
      DeletedAt_Valid r = true) \/
   (exists ic, first_by_code db (reg_InviteCode req) = Some ic /\
      (MaxUses ic <= UsedCount ic \/ Status ic <> InviteCodeStatusActive))) ->
  exists e, Register fa fv fu db req = (RegErr (RegInvalidInviteCode e), db).
Proof.
  intros Hne Hbad.
  assert (Hv : exists e, ValidateInviteCode fv db (reg_InviteCode req) = Err e).
  { destruct (ValidateInviteCode fv db (reg_InviteCode req)) as [ic|e] eqn:V; eauto.
    apply ValidateInviteCode_ok in V as (_ & Hf & Hc).
    apply CanBeUsed_true in Hc as (Hs & Hlt & _).
    destruct Hbad as [Hn | (ic' & Hf' & Hx)].
    - apply first_by_code_none in Hn. congruence.
    - rewrite Hf in Hf'. injection Hf' as <-. destruct Hx; [lia|contradiction]. }
  destruct Hv as [e V]. exists e.
  unfold Register. apply String.eqb_neq in Hne. rewrite Hne, V. reflexivity.
Qed.

(* ------------------------------------------------------------------ *)
(** * C6: creation through the handler *)

(** C6. For an authenticated creation request: if [max_uses] is outside
    [1,100] or the description is longer than 255 characters (runes), the handler
    answers with the binding (validation) error and writes nothing; if
    both are within bounds, the INSERT does not fail and the generated
    code is not already in the table, the handler answers Created with a
    new row appended to invite_codes, whose status is active, usedCount 0,
    maxUses and description those of the request. *)
Theorem create_invite_code_validation draws fails db u req :
  (~ (1 <= req_MaxUses req <= 100 /\
      (RuneCountInString (req_Description req) <= 255)%nat) ->
   CreateInviteCodeHandler draws fails db (Some u) req = Some (RespBindingError, db)) /\
  (forall code,
   1 <= req_MaxUses req <= 100 ->
   (RuneCountInString (req_Description req) <= 255)%nat ->
   fails = false ->
   GenerateInviteCode db draws = Some (Ok code) ->
   (forall r, In r (invite_codes db) -> Code r <> code) ->
   exists ic,
     CreateInviteCodeHandler draws fails db (Some u) req =
       Some (RespCreated ic, mkDB (invite_codes db ++ [ic])%list
                                  (invite_code_usages db) (users db)
                                  (users_auto_increment db)) /\
     Status ic = InviteCodeStatusActive /\ UsedCount ic = 0 /\
     MaxUses ic = req_MaxUses req /\ Description ic = req_Description req /\
     Code ic = code /\ CreatedByID ic = auth_ID u /\ DeletedAt_Valid ic = false).
Proof.
  split.
  - intros Hbad. unfold CreateInviteCodeHandler.
    destruct (bind_create_request req) eqn:B; [|reflexivity].
    exfalso; apply Hbad.
    unfold bind_create_request in B.
    apply andb_prop in B as [B B3]; apply andb_prop in B as [B1 B2].
    apply Z.leb_le in B1; apply Z.leb_le in B2; apply Nat.leb_le in B3. lia.
  - intros code Hm Hd -> G Hfresh.
    unfold CreateInviteCodeHandler, bind_create_request.
    destruct Hm as [Hm1 Hm2].
    apply Z.leb_le in Hm1; apply Z.leb_le in Hm2; apply Nat.leb_le in Hd.
    rewrite Hm1, Hm2, Hd; simpl.
    unfold CreateInviteCode; rewrite G.
    unfold create_code; simpl.
    assert (Hx : existsb (fun r => String.eqb (Code r) code) (invite_codes db) = false).
    { apply Bool.not_true_iff_false; intros Hx.
      apply existsb_exists in Hx as (r & Hin & Hc).
      apply String.eqb_eq in Hc. exact (Hfresh r Hin Hc). }
    rewrite Hx. eexists; split; [reflexivity|]. simpl; repeat split.
Qed.

(* ------------------------------------------------------------------ *)
(** * C7: code generation *)

Lemma EncodeToString_length bs :
  String.length (EncodeToString bs) = (2 * List.length bs)%nat.
Proof. induction bs as [|b bs IH]; simpl; [reflexivity|]. rewrite IH. lia. Qed.

Lemma hex_digits_of_byte b :
  is_lower_hex (hex_digit (Nat.div (Byte.to_nat b) 16)) = true /\
  is_lower_hex (hex_digit (Nat.modulo (Byte.to_nat b) 16)) = true.
Proof. destruct b; split; reflexivity. Qed.

Lemma EncodeToString_lower_hex bs i c :
  String.get i (EncodeToString bs) = Some c -> is_lower_hex c = true.
Proof.
  revert i; induction bs as [|b bs IH]; simpl; intros i H; [discriminate|].
  destruct (hex_digits_of_byte b) as [H1 H2].
  destruct i as [|[|i]]; simpl in H.
  - injection H as <-; exact H1.
  - injection H as <-; exact H2.
  - eapply IH; exact H.
Qed.

Lemma GenerateInviteCode_ok db draws code :
  GenerateInviteCode db draws = Some (Ok code) ->
  exists bs, In (Some bs) draws /\ code = EncodeToString bs /\
             first_by_code db code = None.
Proof.
  induction draws as [|[bs|] rest IH]; simpl; try discriminate.
  destruct (first_by_code db (EncodeToString bs)) eqn:E.
  - intros H; destruct (IH H) as (bs' & Hin & Hc & Hf); eauto.
  - intros H; injection H as <-. eauto.
Qed.

Lemma GenerateInviteCode_attempts db draws code :
  GenerateInviteCode db draws = Some (Ok code) ->
  exists tried bs rest,
    draws = (map Some tried ++ Some bs :: rest)%list /\
    code = EncodeToString bs /\ first_by_code db code = None /\
    Forall (fun bs' => first_by_code db (EncodeToString bs') <> None) tried.
Proof.
  induction draws as [|[bs|] rest IH]; simpl; try discriminate.
  destruct (first_by_code db (EncodeToString bs)) as [r|] eqn:E.
  - intros H; destruct (IH H) as (tried & bs' & rest' & -> & Hc & Hf & Ht).
    exists (bs :: tried), bs', rest'. repeat split; auto.
    constructor; [rewrite E; discriminate|exact Ht].
  - intros H; injection H as <-. exists [], bs, rest. repeat split; auto.
Qed.

(** C7 (as the code does it). Every successful GenerateInviteCode call,
    when each [rand.Read] yields 16 bytes, returns the [EncodeToString] of
    the 16 bytes drawn in its last attempt: 32 characters, all lowercase
    hex digits. Every earlier attempt drew bytes whose code the existence
    check found in a live (not soft-deleted) row, which is why it was
    retried; the returned code is not the code of any live row of the
    store it checked. The function has no store result, i.e. it only
    reads. Nothing relates two calls: each differs from the live codes
    only. *)
Theorem generate_invite_code_shape db draws code :
  Forall (fun d => match d with Some bs => List.length bs = 16%nat | None => True end) draws ->
  GenerateInviteCode db draws = Some (Ok code) ->
  String.length code = 32%nat /\
  (forall i c, String.get i code = Some c -> is_lower_hex c = true) /\
  (exists tried bs rest,
     draws = (map Some tried ++ Some bs :: rest)%list /\
     List.length bs = 16%nat /\ code = EncodeToString bs /\
     Forall (fun bs' => exists r, In r (invite_codes db) /\ DeletedAt_Valid r = false /\
                                  Code r = EncodeToString bs') tried) /\
  (forall r, In r (invite_codes db) -> DeletedAt_Valid r = false -> Code r <> code).
Proof.
  intros Hw G.
  destruct (GenerateInviteCode_attempts _ _ _ G) as (tried & bs & rest & Hd & Hc & Hf & Ht).
  assert (Hlen : List.length bs = 16%nat).
  { rewrite Forall_forall in Hw. apply (Hw (Some bs)).
    rewrite Hd. apply in_or_app. right. left. reflexivity. }
  subst code. split; [|split; [|split]].
  - rewrite EncodeToString_length, Hlen. reflexivity.
  - apply EncodeToString_lower_hex.
  - exists tried, bs, rest. split; [exact Hd|split; [exact Hlen|split; [reflexivity|]]].
    revert Ht. apply Forall_impl. intros bs' Hb.
    destruct (first_by_code db (EncodeToString bs')) as [r|] eqn:E; [|congruence].
    destruct (first_by_code_some _ _ _ E) as (Hin & Hcode & Hdel). eauto.
  - intros r Hr Hdel Heq.
    apply first_by_code_none with (r := r) in Hf; auto. congruence.
Qed.

(** A 16-byte block used in the concrete scenarios. *)
Definition demo_bytes : list byte := repeat Byte.x1f 16.
Definition demo_code : string := EncodeToString demo_bytes.

(** C7, counterexample: two generations in a row on the same store, with
    no insert between them, return the same code when the random source
    yields the same 16 bytes; the generator does not make successive
    generations pairwise distinct. Also, a code stored in a soft-deleted
    row is not seen by the existence check and is returned. *)
Lemma generations_not_pairwise_distinct :
  GenerateInviteCode empty_db [Some demo_bytes] = Some (Ok demo_code) /\
  GenerateInviteCode empty_db [Some demo_bytes] = Some (Ok demo_code) /\
  demo_code = "1f1f1f1f1f1f1f1f1f1f1f1f1f1f1f1f" /\
  GenerateInviteCode
    (mkDB [mkInviteCode 1 demo_code 7 InviteCodeStatusActive 1 0 "x" true] [] [] 1)
    [Some demo_bytes] = Some (Ok demo_code).
Proof. repeat split; reflexivity. Qed.

(* ------------------------------------------------------------------ *)
(** * C9: status updates *)

Lemma UpdateInviteCodeStatus_shape f db id status :
  match UpdateInviteCodeStatus f db id status with
  | (Ok ic, db') => Status ic = status /\ ic_ID ic = id /\ db' = save_code db ic /\
      exists r0, In r0 (invite_codes db) /\ ic_ID r0 = id /\ UsedCount ic = UsedCount r0
  | (Err _, db') => db' = db
  end.
Proof.
  unfold UpdateInviteCodeStatus.
  destruct (read_fails f); [reflexivity|].
  destruct (first_by_id db id) as [ic|] eqn:E; [|reflexivity].
  destruct (save_fails f); [reflexivity|].
  unfold first_by_id in E. apply find_some in E as [Hin Hp].
  apply andb_prop in Hp as [Hp _]. apply Nat.eqb_eq in Hp.
  simpl; repeat split; eauto.
Qed.

Lemma save_code_new_rows db ic r :
  In r (invite_codes (save_code db ic)) -> r = ic \/ In r (invite_codes db).
Proof.
  unfold save_code; simpl; intros H.
  apply in_map_iff in H as (r0 & Hr & Hin).
  destruct (Nat.eqb _ _); subst; auto.
Qed.

Lemma CreateInviteCodeHandler_shape draws fails db user req :
  match CreateInviteCodeHandler draws fails db user req with
  | Some (RespCreated ic, db') =>
      Status ic = InviteCodeStatusActive /\ UsedCount ic = 0 /\
      ic_ID ic = S (List.length (invite_codes db)) /\
      db' = mkDB (invite_codes db ++ [ic])%list (invite_code_usages db) (users db)
                 (users_auto_increment db)
  | Some (_, db') => db' = db
  | None => True
  end.
Proof.
  unfold CreateInviteCodeHandler.
  destruct user; [|reflexivity].
  destruct (negb (bind_create_request req)); [reflexivity|].
  unfold CreateInviteCode.
  destruct (GenerateInviteCode db draws) as [[code|e]|]; [|reflexivity|exact I].
  destruct fails; [reflexivity|].
  unfold create_code. destruct (existsb _ _); [reflexivity|]. simpl; auto.
Qed.

Lemma ValidateInviteCode_active f db code ic :
  ValidateInviteCode f db code = Ok ic -> Status ic = InviteCodeStatusActive.
Proof.
  unfold ValidateInviteCode.
  destruct (GetInviteCodeByCode f db code) as [ic0|e]; [|discriminate].
  destruct (CanBeUsed ic0) eqn:Hc; cbn [negb];
    [|destruct (IsExhausted ic0); discriminate].
  intros H; injection H as <-.
  unfold CanBeUsed, IsActive in Hc.
  destruct (String.eqb (Status ic0) InviteCodeStatusActive) eqn:Hs; [|discriminate].
  apply String.eqb_eq. exact Hs.
Qed.

(** C9. The only caller of InviteCodeService.UpdateInviteCodeStatus is
    the PUT /invite-codes/:id/status handler, which binds
    [oneof=active disabled] before calling the service: a successful
    status update stores only [active] or [disabled]. Neither a status
    update nor a creation through the handlers produces a row with status
    [used] that was not already in the store; a redemption (UseInviteCode)
    produces one only for a row whose usedCount has reached maxUses. *)
Theorem status_update_handler_never_sets_used fget fupd db user id status
    draws fails cuser req :
  (match UpdateInviteCodeStatusHandler fget fupd db user id status with
   | (RespSuccess ic, db') =>
       (Status ic = InviteCodeStatusActive \/ Status ic = InviteCodeStatusDisabled) /\
       db' = save_code db ic
   | (_, db') => db' = db
   end) /\
  (forall r, In r (invite_codes (snd (UpdateInviteCodeStatusHandler fget fupd db user id status))) ->
     Status r = InviteCodeStatusUsed -> In r (invite_codes db)) /\
  (forall resp db' r, CreateInviteCodeHandler draws fails db cuser req = Some (resp, db') ->
     In r (invite_codes db') -> Status r = InviteCodeStatusUsed -> In r (invite_codes db)) /\
  (forall f code userID ip ua r,
     In r (invite_codes (snd (UseInviteCode f db code userID ip ua))) ->
     Status r = InviteCodeStatusUsed -> In r (invite_codes db) \/ MaxUses r <= UsedCount r).
Proof.
  assert (Hupd :
    match UpdateInviteCodeStatusHandler fget fupd db user id status with
    | (RespSuccess ic, db') =>
        (Status ic = InviteCodeStatusActive \/ Status ic = InviteCodeStatusDisabled) /\
        db' = save_code db ic
    | (_, db') => db' = db
    end).
  { unfold UpdateInviteCodeStatusHandler.
    destruct user as [u|]; [|reflexivity].
    destruct (bind_status status) eqn:B; [|reflexivity]; simpl.
    destruct (if read_fails fget then None else first_by_id db id) as [ic|]; [|reflexivity].
    destruct (negb _ && negb _); [reflexivity|].
    pose proof (UpdateInviteCodeStatus_shape fupd db id status) as Hs.
    destruct (UpdateInviteCodeStatus fupd db id status) as [[ic'|e] db'].
    - destruct Hs as (Hst & _ & -> & _). split; auto.
      unfold bind_status in B. apply orb_prop in B as [B|B];
        apply String.eqb_eq in B; rewrite Hst, B; auto.
    - exact Hs. }
  split; [exact Hupd|split].
  - intros r Hin Hu.
    destruct (UpdateInviteCodeStatusHandler fget fupd db user id status) as [resp db'].
    simpl in Hin.
    destruct resp; try (subst; exact Hin).
    destruct Hupd as [Hst ->].
    apply save_code_new_rows in Hin as [->|Hin]; auto.
    rewrite Hu in Hst. destruct Hst as [H|H]; discriminate.
  - split.
  + intros resp db' r E Hin Hu.
    pose proof (CreateInviteCodeHandler_shape draws fails db cuser req) as Hs.
    rewrite E in Hs.
    destruct resp; try (subst; exact Hin).
    destruct Hs as (Hst & _ & _ & ->). simpl in Hin.
    apply in_app_or in Hin as [Hin|[<-|[]]]; auto.
    rewrite Hu in Hst. discriminate.
  + intros f code userID ip ua r Hin Hu.
    destruct (UseInviteCode f db code userID ip ua) as [[ic'|e] db'] eqn:E; simpl in Hin.
    * apply UseInviteCode_ok_shape in E as (ic & V & -> & ->).
      change (invite_codes (snd (create_usage (save_code db (bump ic))
                (mkInviteCodeUsage 0 (ic_ID (bump ic)) userID ip ua))))
        with (invite_codes (save_code db (bump ic))) in Hin.
      apply save_code_new_rows in Hin as [->|Hin]; [|left; exact Hin].
      right. apply ValidateInviteCode_active in V.
      unfold bump in *; cbn in Hu |- *.
      destruct (UsedCount ic + 1 >=? MaxUses ic) eqn:Hc.
      { rewrite Z.geb_leb in Hc. apply Z.leb_le in Hc. exact Hc. }
      { rewrite V in Hu. discriminate. }
    * apply UseInviteCode_err_db in E. subst db'. left. exact Hin.
Qed.

(** A store holding one active code with [maxUses = 1], as created by
    user 7 from the empty store (see the scenario theorems below). *)
Definition demo_row : InviteCode :=
  mkInviteCode 1 demo_code 7 InviteCodeStatusActive 1 0 "x" false.
Definition demo_db : DB := mkDB [demo_row] [] [] 1.


(* ------------------------------------------------------------------ *)
(** * C1 and C8: two concurrent redemptions of a single-use code *)

Definition demo_user : AuthUser := mkAuthUser 7 false.
Definition demo_request : CreateInviteCodeRequest := mkCreateInviteCodeRequest 1 "x".

(** Two registrations (users 10 and 11) redeeming the code of [demo_db]. *)
Definition demo_threads : list Thread :=
  [Fresh (mkRedeemer demo_code 10); Fresh (mkRedeemer demo_code 11)].

(** Both threads read before either writes. *)
Definition racing_schedule : list nat := [0; 1; 0; 1]%nat.
(** One thread after the other. *)
Definition serial_schedule : list nat := [0; 0; 1; 1]%nat.

(** C1 (failing input). The code with [maxUses = 1] of [demo_db] is what
    the creation handler stores from the empty store. With N = 1 and
    k = 1, when both redemptions read the row before either commits
    (schedule read, read, write, write), both succeed and none fails with
    Exhausted: the row is read by ValidateInviteCode through [s.db],
    outside the transaction and without a lock, and Save writes back the
    stale count plus one. Run one after the other, the second fails with
    Exhausted. *)
Theorem concurrent_redemptions_oversell :
  CreateInviteCodeHandler [Some demo_bytes] false empty_db (Some demo_user)
    demo_request = Some (RespCreated demo_row, demo_db) /\
  MaxUses demo_row = 1 /\
  count_successes (fst (run_schedule racing_schedule demo_threads demo_db)) = 2%nat /\
  count_exhausted (fst (run_schedule racing_schedule demo_threads demo_db)) = 0%nat /\
  count_successes (fst (run_schedule serial_schedule demo_threads demo_db)) = 1%nat /\
  count_exhausted (fst (run_schedule serial_schedule demo_threads demo_db)) = 1%nat.
Proof. repeat split; vm_compute; reflexivity. Qed.

(** C8 (failing input). After the same two concurrent redemptions of the
    single-use code, the ledger holds two rows for the code while its
    usedCount is 1 (the lost update of C1). *)
Theorem concurrent_redemptions_ledger_mismatch :
  let db' := snd (run_schedule racing_schedule demo_threads demo_db) in
  ledger_count db' 1 = 2%nat /\
  option_map UsedCount (first_by_id db' 1) = Some 1 /\
  Z.of_nat (ledger_count db' 1) <> 1.
Proof. vm_compute. repeat split; discriminate. Qed.

(* ------------------------------------------------------------------ *)
(** * Ledger completeness on sequential runs *)

(** Keys of rows and ledger references stay within the table; every row's
    usedCount is the number of ledger rows referencing it. *)
Definition ledger_ok (db : DB) : Prop :=
  (forall r, In r (invite_codes db) -> (ic_ID r <= List.length (invite_codes db))%nat) /\
  (forall u, In u (invite_code_usages db) ->
     (InviteCodeID u <= List.length (invite_codes db))%nat) /\
  (forall r, In r (invite_codes db) -> Z.of_nat (ledger_count db (ic_ID r)) = UsedCount r).

Lemma save_code_in_inv db ic r :
  In r (invite_codes (save_code db ic)) ->
  r = ic \/ (In r (invite_codes db) /\ ic_ID r <> ic_ID ic).
Proof.
  unfold save_code; simpl; intros H.
  apply in_map_iff in H as (r0 & Hr & Hin).
  destruct (Nat.eqb (ic_ID r0) (ic_ID ic)) eqn:E; subst; auto.
  right; split; auto. apply Nat.eqb_neq; exact E.
Qed.

Lemma save_code_length db ic :
  List.length (invite_codes (save_code db ic)) = List.length (invite_codes db).
Proof. apply length_map. Qed.

Lemma ledger_count_save db ic id :
  ledger_count (save_code db ic) id = ledger_count db id.
Proof. reflexivity. Qed.

Lemma ledger_count_add db u id :
  ledger_count (snd (create_usage db u)) id =
  (ledger_count db id + if Nat.eqb (InviteCodeID u) id then 1 else 0)%nat.
Proof.
  unfold ledger_count, create_usage; simpl.
  rewrite filter_app, length_app. simpl.
  destruct (Nat.eqb (InviteCodeID u) id); reflexivity.
Qed.

Lemma create_usage_codes db u :
  invite_codes (snd (create_usage db u)) = invite_codes db.
Proof. reflexivity. Qed.

Lemma create_usage_usages db u :
  invite_code_usages (snd (create_usage db u)) =
  (invite_code_usages db ++ [fst (create_usage db u)])%list.
Proof. reflexivity. Qed.

Lemma ledger_ok_save db ic :
  ledger_ok db ->
  (exists r0, In r0 (invite_codes db) /\ ic_ID r0 = ic_ID ic) ->
  Z.of_nat (ledger_count db (ic_ID ic)) = UsedCount ic ->
  ledger_ok (save_code db ic).
Proof.
  intros (H1 & H2 & H3) (r0 & Hr0 & Hid) Hc.
  split; [|split]; rewrite ?save_code_length.
  - intros r Hr. apply save_code_in_inv in Hr as [->|[Hr _]]; auto.
    rewrite <- Hid; auto.
  - exact H2.
  - intros r Hr. rewrite ledger_count_save.
    apply save_code_in_inv in Hr as [->|[Hr _]]; auto.
Qed.

Lemma ledger_ok_UseInviteCode f db code userID ip ua :
  ledger_ok db -> ledger_ok (snd (UseInviteCode f db code userID ip ua)).
Proof.
  intros H.
  destruct (UseInviteCode f db code userID ip ua) as [[ic'|e] db'] eqn:E; simpl.
  - apply UseInviteCode_ok_shape in E as (ic & V & -> & ->).
    apply ValidateInviteCode_ok in V as (_ & Hf & _).
    apply first_by_code_some in Hf as (Hin & _).
    destruct H as (H1 & H2 & H3).
    split; [|split]; rewrite ?create_usage_codes, ?create_usage_usages, ?save_code_length.
    + intros r Hr. apply save_code_in_inv in Hr as [->|[Hr _]]; auto.
      exact (H1 ic Hin).
    + intros u Hu. apply in_app_or in Hu as [Hu|[<-|[]]]; auto.
      exact (H1 ic Hin).
    + intros r Hr. rewrite ledger_count_add, ledger_count_save.
      apply save_code_in_inv in Hr as [->|[Hr Hne]].
      * cbn [fst create_usage InviteCodeID].
        change (ic_ID (bump ic)) with (ic_ID ic).
        rewrite Nat.eqb_refl, Nat2Z.inj_add, (H3 ic Hin).
        unfold bump; simpl. lia.
      * cbn [fst create_usage InviteCodeID].
        replace (Nat.eqb (ic_ID (bump ic)) (ic_ID r)) with false
          by (symmetry; apply Nat.eqb_neq; congruence).
        rewrite Nat.add_0_r. apply H3; exact Hr.
  - apply UseInviteCode_err_db in E; subst; auto.
Qed.

Lemma ledger_count_beyond db n :
  (forall u, In u (invite_code_usages db) -> (InviteCodeID u <= n)%nat) ->
  ledger_count db (S n) = 0%nat.
Proof.
  unfold ledger_count; intros H.
  induction (invite_code_usages db) as [|u us IH]; simpl; [reflexivity|].
  destruct (Nat.eqb (InviteCodeID u) (S n)) eqn:E.
  - apply Nat.eqb_eq in E. specialize (H u (or_introl eq_refl)). lia.
  - apply IH; intros u' Hu'; apply H; right; exact Hu'.
Qed.

Lemma ledger_ok_append db ic :
  ledger_ok db -> UsedCount ic = 0 -> ic_ID ic = S (List.length (invite_codes db)) ->
  ledger_ok (mkDB (invite_codes db ++ [ic])%list (invite_code_usages db) (users db)
               (users_auto_increment db)).
Proof.
  intros (H1 & H2 & H3) Hu Hid; unfold ledger_ok; simpl.
  rewrite length_app; simpl.
  split; [|split].
  - intros r Hr; apply in_app_or in Hr as [Hr|[<-|[]]].
    + specialize (H1 r Hr); lia.
    + lia.
  - intros u Hu'; specialize (H2 u Hu'); lia.
  - intros r Hr; apply in_app_or in Hr as [Hr|[<-|[]]].
    + exact (H3 r Hr).
    + rewrite Hid, Hu.
      change (Z.of_nat (ledger_count db (S (List.length (invite_codes db)))) = 0).
      rewrite (ledger_count_beyond db _ H2). reflexivity.
Qed.

Lemma ledger_ok_soft_delete db id : ledger_ok db -> ledger_ok (soft_delete_code db id).
Proof.
  intros (H1 & H2 & H3). unfold ledger_ok, soft_delete_code; simpl.
  rewrite length_map.
  split; [|split].
  - intros r Hr; apply in_map_iff in Hr as (r0 & <- & Hin).
    destruct (_ && _); simpl; auto.
  - exact H2.
  - intros r Hr; apply in_map_iff in Hr as (r0 & <- & Hin).
    destruct (_ && _); simpl; apply H3; exact Hin.
Qed.

Lemma ledger_ok_exec_op db op : ledger_ok db -> ledger_ok (exec_op db op).
Proof.
  intros H; destruct op as [draws fails user req|f code userID ip ua|f id status|f id]; simpl.
  - pose proof (CreateInviteCodeHandler_shape draws fails db user req) as Hs.
    destruct (CreateInviteCodeHandler draws fails db user req) as [[resp db']|]; auto.
    destruct resp; try (subst; exact H).
    destruct Hs as (_ & Hu & Hid & ->).
    apply ledger_ok_append; auto.
  - apply ledger_ok_UseInviteCode; auto.
  - pose proof (UpdateInviteCodeStatus_shape f db id status) as Hs.
    destruct (UpdateInviteCodeStatus f db id status) as [[ic|e] db']; simpl.
    + destruct Hs as (_ & Hid & -> & r0 & Hin & Hid0 & Hu).
      apply ledger_ok_save; auto.
      * exists r0; split; congruence.
      * destruct H as (_ & _ & H3). rewrite Hu, <- (H3 r0 Hin). congruence.
    + subst; auto.
  - unfold DeleteInviteCode. destruct (save_fails f); auto.
    destruct (first_by_id db id); simpl; auto.
    apply ledger_ok_soft_delete; auto.
Qed.

(** On sequential runs (one operation after the other, from the empty
    store) the ledger count of every row equals its usedCount; the
    mismatch of [concurrent_redemptions_ledger_mismatch] needs two
    overlapping redemptions. *)
Lemma sequential_ledger_complete ops : ledger_ok (run_ops ops empty_db).
Proof.
  unfold run_ops.
  assert (H0 : ledger_ok empty_db)
    by (split; [|split]; intros ? [] ).
  revert H0; generalize empty_db.
  induction ops as [|op ops IH]; simpl; auto.
  intros d H; apply IH, ledger_ok_exec_op, H.
Qed.

(* ------------------------------------------------------------------ *)
(** * Witnesses: the hypotheses of the theorems hold at concrete inputs *)

Definition demo_used_row : InviteCode :=
  mkInviteCode 1 demo_code 7 InviteCodeStatusUsed 1 1 "x" false.
Definition demo_used_db : DB :=
  mkDB [demo_used_row] [mkInviteCodeUsage 1 1 10%nat "unknown" "unknown"] [] 1.
Definition demo_register : RegisterRequest := mkRegisterRequest "ann@example.org" "secret" demo_code.
Definition auth_ok : AuthFaults := mkAuthFaults false false false.
Definition save_broken : StoreFaults := mkStoreFaults false true false false.

Lemma redemption_error_selection_witness :
  let db1 := snd (UpdateInviteCodeStatus no_faults demo_db 1 InviteCodeStatusDisabled) in
  UseInviteCode no_faults db1 demo_code 10%nat "unknown" "unknown" = (Err ErrNotActive, db1) /\
  exists ic1, first_by_code db1 demo_code = Some ic1 /\
    Status ic1 = InviteCodeStatusDisabled /\ UsedCount ic1 = 0.
Proof.
  apply (proj2 (proj2 (proj2 (redemption_error_selection no_faults demo_db demo_code
           10%nat "unknown" "unknown" eq_refl))) demo_row no_faults);
    reflexivity || lia.
Defined.

Lemma counter_invariant_witness :
  (Status demo_used_row = InviteCodeStatusUsed <->
   UsedCount demo_used_row = MaxUses demo_used_row) /\
  In demo_used_row (invite_codes demo_used_db).
Proof.
  apply (proj2 (counter_invariant
           [OpCreate [Some demo_bytes] false (Some demo_user) demo_request])
           no_faults demo_code 10%nat "unknown" "unknown" demo_used_row demo_used_db).
  vm_compute. reflexivity.
Defined.

Lemma register_keeps_user_when_redemption_fails_witness :
  exists u,
    InviteCodeIDField u = Some 1%nat /\
    InviteCodeUsed u = Some demo_code /\
    fst (Register auth_ok no_faults save_broken demo_db demo_register) = RegOk u /\
    users (snd (Register auth_ok no_faults save_broken demo_db demo_register)) = [u].
Proof.
  destruct (register_keeps_user_when_redemption_fails auth_ok no_faults demo_db
              demo_register demo_row) as (u & H1 & H2 & H3);
    try reflexivity; [discriminate|].
  exists u. split; [exact H1|split; [exact H2|]]. exact (H3 save_broken).
Defined.

Lemma register_rejects_invalid_code_witness :
  exists e, Register auth_ok no_faults no_faults demo_used_db demo_register =
            (RegErr (RegInvalidInviteCode e), demo_used_db).
Proof.
  apply register_rejects_invalid_code; [discriminate|].
  right. exists demo_used_row. split; [reflexivity|]. left. simpl. lia.
Defined.

(** A description of 128 letters e-acute (two bytes each in UTF-8). *)
Definition e_acute : string := String (ascii_of_nat 195) (String (ascii_of_nat 169) EmptyString).

Fixpoint string_repeat (n : nat) (s : string) : string :=
  match n with
  | O => EmptyString
  | S n' => s ++ string_repeat n' s
  end.

Definition accented_request : CreateInviteCodeRequest :=
  mkCreateInviteCodeRequest 1 (string_repeat 128 e_acute).

Lemma create_invite_code_validation_witness :
  String.length (req_Description accented_request) = 256%nat /\
  CreateInviteCodeHandler [Some demo_bytes] false empty_db (Some demo_user)
    (mkCreateInviteCodeRequest 0 "x") = Some (RespBindingError, empty_db) /\
  exists ic,
    CreateInviteCodeHandler [Some demo_bytes] false empty_db (Some demo_user) accented_request =
      Some (RespCreated ic, mkDB ([] ++ [ic])%list [] [] 1) /\
    Status ic = InviteCodeStatusActive /\ UsedCount ic = 0 /\
    MaxUses ic = 1 /\ Description ic = string_repeat 128 e_acute /\
    Code ic = demo_code /\ CreatedByID ic = 7%nat /\ DeletedAt_Valid ic = false.
Proof.
  split; [vm_compute; reflexivity|split].
  - apply (proj1 (create_invite_code_validation [Some demo_bytes] false empty_db
             demo_user (mkCreateInviteCodeRequest 0 "x"))).
    simpl. lia.
  - apply (proj2 (create_invite_code_validation [Some demo_bytes] false empty_db
             demo_user accented_request) demo_code); try reflexivity.
    + simpl. lia.
    + apply Nat.leb_le. vm_compute. reflexivity.
    + intros r [].
Defined.

Lemma generate_invite_code_shape_witness :
  let code := EncodeToString (repeat Byte.x2a 16) in
  String.length code = 32%nat /\
  (forall i c, String.get i code = Some c -> is_lower_hex c = true) /\
  (exists tried bs rest,
     [Some demo_bytes; Some (repeat Byte.x2a 16)] = (map Some tried ++ Some bs :: rest)%list /\
     List.length bs = 16%nat /\ code = EncodeToString bs /\
     Forall (fun bs' => exists r, In r (invite_codes demo_db) /\ DeletedAt_Valid r = false /\
                                  Code r = EncodeToString bs') tried) /\
  (forall r, In r (invite_codes demo_db) -> DeletedAt_Valid r = false -> Code r <> code).
Proof.
  apply (generate_invite_code_shape demo_db [Some demo_bytes; Some (repeat Byte.x2a 16)]).
  - repeat constructor.
  - vm_compute. reflexivity.
Defined.

Lemma status_update_handler_never_sets_used_witness :
  In demo_used_row (invite_codes demo_used_db) /\
  (In (bump demo_row) (invite_codes demo_db) \/ MaxUses (bump demo_row) <= UsedCount (bump demo_row)).
Proof.
  split.
  - apply (proj1 (proj2 (proj2 (status_update_handler_never_sets_used no_faults no_faults
           demo_used_db (Some demo_user) 1%nat InviteCodeStatusDisabled
           [Some (repeat Byte.x2a 16)] false (Some demo_user) demo_request)))
         (RespCreated (mkInviteCode 2%nat (EncodeToString (repeat Byte.x2a 16)) 7
                        InviteCodeStatusActive 1 0 "x" false))
         (mkDB [demo_used_row; mkInviteCode 2%nat (EncodeToString (repeat Byte.x2a 16)) 7
                        InviteCodeStatusActive 1 0 "x" false]
               (invite_code_usages demo_used_db) [] 1)
         demo_used_row).
    + vm_compute. reflexivity.
    + simpl. left. reflexivity.
    + reflexivity.
  - apply (proj2 (proj2 (proj2 (status_update_handler_never_sets_used no_faults no_faults
           demo_db (Some demo_user) 1%nat InviteCodeStatusDisabled
           [Some (repeat Byte.x2a 16)] false (Some demo_user) demo_request)))
           no_faults demo_code 10%nat "unknown" "unknown").
    + vm_compute. left. reflexivity.
    + reflexivity.
Defined.

(* ------------------------------------------------------------------ *)
(** * Listings and pagination (ListAllInviteCodes, ListInviteCodesByCreator,
    GetUsagesByInviteCode and the handlers calling them)

    The store reads of the listings are taken to succeed. *)

(** Go's [int] is 64 bits wide; multiplication wraps modulo 2^64. *)
Definition int64_max : Z := 2 ^ 63 - 1.
Definition wrap64 (z : Z) : Z := (z + 2 ^ 63) mod 2 ^ 64 - 2 ^ 63.

(** The query handling of the handlers ListAllInviteCodes, GetMyInviteCodes
    and GetInviteCodeUsages, from the values strconv.Atoi returns (0 on a
    syntax error, the clamped value on a range error): page, limit and
    [offset := (page - 1) * limit]. *)
Definition normalize_paging (page limit : Z) : Z * Z * Z :=
  let page := if page <? 1 then 1 else page in
  let limit := if (limit <? 1) || (limit >? 100) then 10 else limit in
  (page, limit, wrap64 ((page - 1) * limit)).

(** gorm's [Limit(limit).Offset(offset)] on an ordered result: LIMIT is
    emitted when [limit >= 0], OFFSET only when [offset > 0]. *)
Definition limit_offset {A} (limit offset : Z) (rows : list A) : list A :=
  let rows := if 0 <? offset then skipn (Z.to_nat offset) rows else rows in
  if 0 <=? limit then firstn (Z.to_nat limit) rows else rows.

(** The rows the default scope sees, in key order. *)
Definition live_codes (db : DB) : list InviteCode :=
  filter (fun r => negb (DeletedAt_Valid r)) (invite_codes db).

(** [Order("created_at DESC")] and [Order("used_at DESC")]: a row gets its
    creation (use) time when it is inserted, and rows are inserted in key
    order, so the newest row comes first. The timestamps are not unique
    (datetime(3)) and MySQL may return rows with equal timestamps in any
    order, which can differ between queries; the model lists them in
    reverse key order, one of the orders MySQL may use. The results below
    that use these listings depend only on which rows a query returns and
    on how many, or compare two identical queries. *)
Definition newest_first {A} (rows : list A) : list A := rev rows.

(** InviteCodeService.ListAllInviteCodes: the page and the total count. *)
Definition ListAllInviteCodes (db : DB) (limit offset : Z) : list InviteCode * nat :=
  (limit_offset limit offset (newest_first (live_codes db)),
   List.length (live_codes db)).

(** InviteCodeService.ListInviteCodesByCreator *)
Definition ListInviteCodesByCreator (db : DB) (creatorID : nat) (limit offset : Z)
  : list InviteCode * nat :=
  let rows := filter (fun r => Nat.eqb (CreatedByID r) creatorID) (live_codes db) in
  (limit_offset limit offset (newest_first rows), List.length rows).

(** InviteCodeUsageService.GetUsagesByInviteCode *)
Definition GetUsagesByInviteCode (db : DB) (inviteCodeID : nat) (limit offset : Z)
  : list InviteCodeUsage * nat :=
  let rows := filter (fun u => Nat.eqb (InviteCodeID u) inviteCodeID)
                (invite_code_usages db) in
  (limit_offset limit offset (newest_first rows), List.length rows).

(** The body of response.SuccessList: data, page, limit, total. *)
Record ListPage (A : Type) := mkListPage {
  lp_data : list A;
  lp_page : Z;
  lp_limit : Z;
  lp_total : nat
}.
Arguments mkListPage {A} _ _ _ _.
Arguments lp_data {A} _.
Arguments lp_page {A} _.
Arguments lp_limit {A} _.
Arguments lp_total {A} _.

(** InviteCodeHandler.ListAllInviteCodes (an admin route). *)
Definition ListAllInviteCodesHandler (db : DB) (page limit : Z) : ListPage InviteCode :=
  let '(page, limit, offset) := normalize_paging page limit in
  let '(codes, total) := ListAllInviteCodes db limit offset in
  mkListPage codes page limit total.

(** InviteCodeHandler.GetMyInviteCodes *)
Definition GetMyInviteCodesHandler (db : DB) (user : option AuthUser) (page limit : Z)
  : option (ListPage InviteCode) :=
  match user with
  | None => None
  | Some u =>
      let '(page, limit, offset) := normalize_paging page limit in
      let '(codes, total) := ListInviteCodesByCreator db (auth_ID u) limit offset in
      Some (mkListPage codes page limit total)
  end.

(** The answers of GetInviteCodeUsages. *)
Inductive UsagesResponse :=
| UsagesUnauthorized
| UsagesNotFound
| UsagesForbidden
| UsagesSuccess (p : ListPage InviteCodeUsage).

(** InviteCodeHandler.GetInviteCodeUsages; [fget] are the faults of the
    ownership lookup GetInviteCodeByID. *)
Definition GetInviteCodeUsagesHandler (fget : StoreFaults) (db : DB)
    (user : option AuthUser) (id : nat) (page limit : Z) : UsagesResponse :=
  match user with
  | None => UsagesUnauthorized
  | Some u =>
      match (if read_fails fget then None else first_by_id db id) with
      | None => UsagesNotFound
      | Some ic =>
          if negb (Nat.eqb (CreatedByID ic) (auth_ID u)) && negb (auth_IsAdmin u)
          then UsagesForbidden
          else
            let '(page, limit, offset) := normalize_paging page limit in
            let '(usages, total) := GetUsagesByInviteCode db id limit offset in
            UsagesSuccess (mkListPage usages page limit total)
      end
  end.

Lemma wrap64_small z : 0 <= z <= int64_max -> wrap64 z = z.
Proof.
  unfold wrap64, int64_max; intros H.
  rewrite Z.mod_small; lia.
Qed.

Lemma normalize_paging_valid page limit :
  1 <= page -> 1 <= limit <= 100 ->
  normalize_paging page limit = (page, limit, wrap64 ((page - 1) * limit)).
Proof.
  intros Hp Hl; unfold normalize_paging.
  replace (page <? 1) with false by (symmetry; apply Z.ltb_ge; lia).
  replace (limit <? 1) with false by (symmetry; apply Z.ltb_ge; lia).
  replace (limit >? 100) with false by (rewrite Z.gtb_ltb; symmetry; apply Z.ltb_ge; lia).
  reflexivity.
Qed.

Lemma limit_offset_nonpos {A} (l o : Z) (rows : list A) :
  0 <= l -> o <= 0 -> limit_offset l o rows = firstn (Z.to_nat l) rows.
Proof.
  intros Hl Ho; unfold limit_offset.
  replace (0 <? o) with false by (symmetry; apply Z.ltb_ge; lia).
  replace (0 <=? l) with true by (symmetry; apply Z.leb_le; lia).
  reflexivity.
Qed.

Lemma in_firstn_in {A} (x : A) n l : In x (firstn n l) -> In x l.
Proof. intros H. rewrite <- (firstn_skipn n l). apply in_or_app; auto. Qed.

Lemma in_skipn_in {A} (x : A) n l : In x (skipn n l) -> In x l.
Proof. intros H. rewrite <- (firstn_skipn n l). apply in_or_app; auto. Qed.

Lemma normalize_paging_limit_range page limit :
  let '(_, l, _) := normalize_paging page limit in 1 <= l <= 100.
Proof.
  unfold normalize_paging. rewrite Z.gtb_ltb.
  destruct (Z.ltb_spec page 1), (Z.ltb_spec limit 1), (Z.ltb_spec 100 limit); simpl; lia.
Qed.

(** Query normalisation of the list handlers: the page is at least 1, the
    limit lies in [1,100]; a page below 1 becomes 1 and a limit outside
    [1,100] becomes 10, valid values are kept; and when
    [(page - 1) * limit] fits in an int the offset is exactly that
    product and is not negative. *)
Theorem paging_normalization page limit :
  let '(p, l, o) := normalize_paging page limit in
  1 <= p /\ 1 <= l <= 100 /\
  (1 <= page -> p = page) /\ (page < 1 -> p = 1) /\
  (1 <= limit <= 100 -> l = limit) /\ (~ (1 <= limit <= 100) -> l = 10) /\
  ((p - 1) * l <= int64_max -> o = (p - 1) * l /\ 0 <= o).
Proof.
  unfold normalize_paging. rewrite Z.gtb_ltb.
  destruct (Z.ltb_spec page 1), (Z.ltb_spec limit 1), (Z.ltb_spec 100 limit); simpl;
    (split; [lia|split; [lia|]]);
    (split; [intros; lia|split; [intros; lia|split; [intros; lia|split; [intros; lia|]]]]);
    intros Ho; rewrite wrap64_small by nia; split; nia.
Qed.

(** The offset overflows: for every limit in [2,100] there is a valid int
    page number above 1 whose offset [(page - 1) * limit] wraps to a
    negative int; gorm then emits no OFFSET and ListAllInviteCodes answers
    with the rows of page 1, labelled with the requested page. *)
Theorem paging_overflow_returns_first_page db limit :
  2 <= limit <= 100 ->
  exists page, 1 < page <= int64_max /\
    snd (normalize_paging page limit) < 0 /\
    lp_page (ListAllInviteCodesHandler db page limit) = page /\
    lp_data (ListAllInviteCodesHandler db page limit) =
    lp_data (ListAllInviteCodesHandler db 1 limit).
Proof.
  intros Hl.
  set (q := 2 ^ 63 / limit).
  assert (Hq : 2 ^ 63 = limit * q + 2 ^ 63 mod limit) by (apply Z.div_mod; lia).
  assert (Hr : 0 <= 2 ^ 63 mod limit < limit) by (apply Z.mod_pos_bound; lia).
  assert (Hq0 : 0 <= q) by (apply Z.div_pos; lia).
  assert (Hq1 : q <= 2 ^ 62).
  { unfold q. change (2 ^ 62) with (2 ^ 63 / 2). apply Z.div_le_compat_l; lia. }
  assert (Hw : wrap64 ((q + 2 - 1) * limit) = (q + 1) * limit - 2 ^ 64).
  { unfold wrap64.
    rewrite <- (Z.mod_unique ((q + 2 - 1) * limit + 2 ^ 63) (2 ^ 64) 1
                  ((q + 1) * limit + 2 ^ 63 - 2 ^ 64)); lia. }
  exists (q + 2). split; [unfold int64_max; lia|].
  unfold ListAllInviteCodesHandler, ListAllInviteCodes.
  rewrite (normalize_paging_valid (q + 2)), (normalize_paging_valid 1) by lia.
  simpl. rewrite Hw. split; [lia|split; [reflexivity|]].
  replace ((1 - 1) * limit) with 0 by lia.
  rewrite !limit_offset_nonpos; try lia; [reflexivity|].
  vm_compute. discriminate.
Qed.

(** GetMyInviteCodes lists only live codes created by the requesting user,
    at most [limit] of them, and reports as total the number of that user's
    live codes; without an authenticated user it answers Unauthorized. *)
Theorem my_invite_codes_listing db user page limit :
  (user = None -> GetMyInviteCodesHandler db user page limit = None) /\
  forall u p, user = Some u -> GetMyInviteCodesHandler db user page limit = Some p ->
    (forall r, In r (lp_data p) ->
       In r (invite_codes db) /\ DeletedAt_Valid r = false /\ CreatedByID r = auth_ID u) /\
    (List.length (lp_data p) <= Z.to_nat (lp_limit p))%nat /\
    1 <= lp_limit p <= 100 /\
    lp_total p = List.length (filter (fun r => Nat.eqb (CreatedByID r) (auth_ID u))
                                     (live_codes db)).
Proof.
  split; [intros ->; reflexivity|].
  intros u p -> E. unfold GetMyInviteCodesHandler in E.
  pose proof (normalize_paging_limit_range page limit) as Hl.
  destruct (normalize_paging page limit) as [[pg l] o].
  unfold ListInviteCodesByCreator in E. injection E as <-. simpl.
  split; [|split; [|split; [exact Hl|reflexivity]]].
  - intros r Hr. unfold limit_offset in Hr.
    destruct (0 <=? l); [apply in_firstn_in in Hr|];
    (destruct (0 <? o); [apply in_skipn_in in Hr|]);
    unfold newest_first in Hr; apply in_rev in Hr;
    apply filter_In in Hr as [Hr Hc]; apply Nat.eqb_eq in Hc;
    unfold live_codes in Hr; apply filter_In in Hr as [Hr Hd];
    apply negb_true_iff in Hd; auto.
  - unfold limit_offset.
    replace (0 <=? l) with true by (symmetry; apply Z.leb_le; lia).
    apply firstn_le_length.
Qed.

(* ------------------------------------------------------------------ *)
(** * Deletion through the handler, statistics, runs of the HTTP API *)

(** The answers of InviteCodeHandler.DeleteInviteCode. *)
Inductive DeleteResponse :=
| DelUnauthorized
| DelNotFound
| DelForbidden
| DelInternalServerError
| DelSuccess.

(** InviteCodeHandler.DeleteInviteCode; [fget] are the faults of the
    ownership lookup GetInviteCodeByID, [fdel] those of the service call. *)
Definition DeleteInviteCodeHandler (fget fdel : StoreFaults) (db : DB)
    (user : option AuthUser) (id : nat) : DeleteResponse * DB :=
  match user with
  | None => (DelUnauthorized, db)
  | Some u =>
      match (if read_fails fget then None else first_by_id db id) with
      | None => (DelNotFound, db)
      | Some ic =>
          if negb (Nat.eqb (CreatedByID ic) (auth_ID u)) && negb (auth_IsAdmin u)
          then (DelForbidden, db)
          else match DeleteInviteCode fdel db id with
               | (Err _, db') => (DelInternalServerError, db')
               | (Ok _, db') => (DelSuccess, db')
               end
      end
  end.

(** The writes reachable through the routes of cmd/server: creation and
    status update and deletion through their handlers, and redemption
    (UseInviteCode, as Register calls it). *)
Inductive ApiOp :=
| ApiCreate (draws : list (option (list byte))) (insert_fails : bool)
            (user : option AuthUser) (req : CreateInviteCodeRequest)
| ApiRedeem (f : StoreFaults) (code : string) (userID : nat) (ip ua : string)
| ApiUpdateStatus (fget fupd : StoreFaults) (user : option AuthUser) (id : nat)
                  (status : string)
| ApiDelete (fget fdel : StoreFaults) (user : option AuthUser) (id : nat).

Definition exec_api (db : DB) (op : ApiOp) : DB :=
  match op with
  | ApiCreate draws fails user req =>
      match CreateInviteCodeHandler draws fails db user req with
      | Some (_, db') => db'
      | None => db
      end
  | ApiRedeem f code userID ip ua => snd (UseInviteCode f db code userID ip ua)
  | ApiUpdateStatus fget fupd user id status =>
      snd (UpdateInviteCodeStatusHandler fget fupd db user id status)
  | ApiDelete fget fdel user id => snd (DeleteInviteCodeHandler fget fdel db user id)
  end.

Definition run_api (ops : list ApiOp) (db : DB) : DB := fold_left exec_api ops db.

(** The statistics map of InviteCodeService.GetInviteCodeStats. *)
Record InviteCodeStats := mkInviteCodeStats {
  total_codes : nat;
  active_codes : nat;
  used_codes : nat;
  disabled_codes : nat;
  total_usage : Z
}.

Definition count_status (db : DB) (status : string) : nat :=
  List.length (filter (fun r => String.eqb (Status r) status) (live_codes db)).

(** [SELECT COALESCE(SUM(used_count), 0)] over the live rows. *)
Definition sum_used_count (rows : list InviteCode) : Z :=
  fold_right (fun r acc => UsedCount r + acc) 0 rows.

(** InviteCodeService.GetInviteCodeStats (store reads taken to succeed). *)
Definition GetInviteCodeStats (db : DB) : InviteCodeStats :=
  mkInviteCodeStats (List.length (live_codes db))
    (count_status db InviteCodeStatusActive)
    (count_status db InviteCodeStatusUsed)
    (count_status db InviteCodeStatusDisabled)
    (sum_used_count (live_codes db)).

(** Keys are positional: the row at index [k] has key [k + 1]. *)
Definition ids_ok (db : DB) : Prop :=
  forall k r, nth_error (invite_codes db) k = Some r -> ic_ID r = S k.

(** The unique index on [code], soft-deleted rows included. *)
Definition codes_unique (db : DB) : Prop := NoDup (map Code (invite_codes db)).

(** Every row has one of the three statuses of the model. *)
Definition known_status (s : string) : bool :=
  String.eqb s InviteCodeStatusActive || String.eqb s InviteCodeStatusUsed ||
  String.eqb s InviteCodeStatusDisabled.

Definition statuses_ok (db : DB) : Prop :=
  Forall (fun r => known_status (Status r) = true) (invite_codes db).

Lemma UpdateInviteCodeStatusHandler_effect fget fupd db user id status :
  match UpdateInviteCodeStatusHandler fget fupd db user id status with
  | (RespSuccess ic, db') =>
      (Status ic = InviteCodeStatusActive \/ Status ic = InviteCodeStatusDisabled) /\
      (exists u, user = Some u /\ bind_status status = true) /\
      UpdateInviteCodeStatus fupd db id status = (Ok ic, db')
  | (_, db') => db' = db \/ db' = snd (UpdateInviteCodeStatus fupd db id status)
  end.
Proof.
  unfold UpdateInviteCodeStatusHandler.
  destruct user as [u|]; [|left; reflexivity].
  destruct (bind_status status) eqn:B; simpl; [|left; reflexivity].
  destruct (if read_fails fget then None else first_by_id db id) as [ic|]; [|left; reflexivity].
  destruct (negb _ && negb _); [left; reflexivity|].
  pose proof (UpdateInviteCodeStatus_shape fupd db id status) as Hs.
  destruct (UpdateInviteCodeStatus fupd db id status) as [[ic'|e] db'] eqn:E.
  - destruct Hs as (Hst & _). split; [|split; [eauto|reflexivity]].
    unfold bind_status in B. apply orb_prop in B as [B|B];
      apply String.eqb_eq in B; rewrite Hst, B; auto.
  - right; reflexivity.
Qed.

Lemma DeleteInviteCodeHandler_effect fget fdel db user id :
  snd (DeleteInviteCodeHandler fget fdel db user id) = db \/
  snd (DeleteInviteCodeHandler fget fdel db user id) = snd (DeleteInviteCode fdel db id).
Proof.
  unfold DeleteInviteCodeHandler.
  destruct user as [u|]; [|left; reflexivity].
  destruct (if read_fails fget then None else first_by_id db id) as [ic|]; [|left; reflexivity].
  destruct (negb _ && negb _); [left; reflexivity|].
  destruct (DeleteInviteCode fdel db id) as [[[]|e] db']; right; reflexivity.
Qed.

Lemma run_ops_app ops1 ops2 db :
  run_ops (ops1 ++ ops2) db = run_ops ops2 (run_ops ops1 db).
Proof. unfold run_ops. apply fold_left_app. Qed.

(** Every run of the HTTP API is a run of the core operations. *)
Lemma run_api_as_run_ops ops db : exists ops', run_api ops db = run_ops ops' db.
Proof.
  unfold run_api; revert db; induction ops as [|op ops IH]; intros db.
  - exists []; reflexivity.
  - simpl. destruct (IH (exec_api db op)) as [ops' Hops'].
    assert (Hstep : exists l, exec_api db op = run_ops l db).
    { destruct op as [draws fails user req|f code userID ip ua|fget fupd user id status|fget fdel user id].
      - exists [OpCreate draws fails user req]; reflexivity.
      - exists [OpRedeem f code userID ip ua]; reflexivity.
      - pose proof (UpdateInviteCodeStatusHandler_effect fget fupd db user id status) as He.
        simpl. destruct (UpdateInviteCodeStatusHandler fget fupd db user id status)
          as [resp db'].
        destruct resp;
          try (destruct He as [->| ->];
               [exists []; reflexivity | exists [OpUpdateStatus fupd id status]; reflexivity]).
        destruct He as (_ & _ & E). exists [OpUpdateStatus fupd id status].
        simpl. rewrite E. reflexivity.
      - destruct (DeleteInviteCodeHandler_effect fget fdel db user id) as [He|He];
          simpl; rewrite He; [exists []|exists [OpDelete fdel id]]; reflexivity. }
    destruct Hstep as [l Hl].
    exists (l ++ ops')%list. rewrite run_ops_app, <- Hl. exact Hops'.
Qed.

Lemma ids_ok_save db ic : ids_ok db -> ids_ok (save_code db ic).
Proof.
  unfold ids_ok, save_code; simpl; intros H k r E.
  rewrite nth_error_map in E.
  destruct (nth_error (invite_codes db) k) as [r0|] eqn:E0; [|discriminate].
  simpl in E. injection E as <-.
  destruct (Nat.eqb (ic_ID r0) (ic_ID ic)) eqn:Eq; [|exact (H k r0 E0)].
  apply Nat.eqb_eq in Eq. rewrite <- Eq. exact (H k r0 E0).
Qed.

Lemma ids_ok_soft_delete db id : ids_ok db -> ids_ok (soft_delete_code db id).
Proof.
  unfold ids_ok, soft_delete_code; simpl; intros H k r E.
  rewrite nth_error_map in E.
  destruct (nth_error (invite_codes db) k) as [r0|] eqn:E0; [|discriminate].
  simpl in E. injection E as <-.
  destruct (_ && _); simpl; exact (H k r0 E0).
Qed.

Lemma ids_ok_append db ic :
  ids_ok db -> ic_ID ic = S (List.length (invite_codes db)) ->
  ids_ok (mkDB (invite_codes db ++ [ic])%list (invite_code_usages db) (users db)
            (users_auto_increment db)).
Proof.
  unfold ids_ok; simpl; intros H Hid k r E.
  destruct (Nat.lt_ge_cases k (List.length (invite_codes db))) as [Hk|Hk].
  - rewrite nth_error_app1 in E by exact Hk. exact (H k r E).
  - rewrite nth_error_app2 in E by exact Hk.
    destruct (k - List.length (invite_codes db))%nat as [|j] eqn:Ej.
    + simpl in E. injection E as <-. rewrite Hid. lia.
    + destruct j; discriminate.
Qed.

Lemma ids_ok_exec_op db op : ids_ok db -> ids_ok (exec_op db op).
Proof.
  intros H; destruct op as [draws fails user req|f code userID ip ua|f id status|f id]; simpl.
  - pose proof (CreateInviteCodeHandler_shape draws fails db user req) as Hs.
    destruct (CreateInviteCodeHandler draws fails db user req) as [[resp db']|]; auto.
    destruct resp; try (subst; exact H).
    destruct Hs as (_ & _ & Hid & ->). apply ids_ok_append; auto.
  - destruct (UseInviteCode f db code userID ip ua) as [[ic'|e] db'] eqn:E; simpl.
    + apply UseInviteCode_ok_shape in E as (ic & _ & _ & ->).
      apply ids_ok_save; exact H.
    + apply UseInviteCode_err_db in E; subst; exact H.
  - pose proof (UpdateInviteCodeStatus_shape f db id status) as Hs.
    destruct (UpdateInviteCodeStatus f db id status) as [[ic|e] db']; simpl.
    + destruct Hs as (_ & _ & -> & _). apply ids_ok_save; exact H.
    + subst; exact H.
  - unfold DeleteInviteCode. destruct (save_fails f); auto.
    destruct (first_by_id db id); simpl; auto.
    apply ids_ok_soft_delete; auto.
Qed.

Lemma ids_ok_unique db r1 r2 :
  ids_ok db -> In r1 (invite_codes db) -> In r2 (invite_codes db) ->
  ic_ID r1 = ic_ID r2 -> r1 = r2.
Proof.
  intros H H1 H2 Heq.
  apply In_nth_error in H1 as [k1 E1]. apply In_nth_error in H2 as [k2 E2].
  pose proof (H _ _ E1) as I1. pose proof (H _ _ E2) as I2.
  assert (k1 = k2) as <- by lia. congruence.
Qed.

Lemma ids_ok_NoDup db : ids_ok db -> NoDup (map ic_ID (invite_codes db)).
Proof.
  intros H. apply NoDup_nth_error. intros i j Hi E.
  rewrite length_map in Hi. rewrite !nth_error_map in E.
  destruct (nth_error (invite_codes db) i) as [ri|] eqn:Ei;
    [|apply nth_error_None in Ei; lia].
  destruct (nth_error (invite_codes db) j) as [rj|] eqn:Ej; [|discriminate].
  simpl in E. injection E as E.
  rewrite (H _ _ Ei), (H _ _ Ej) in E. lia.
Qed.

Lemma NoDup_map_inj {A B} (f : A -> B) l x y :
  NoDup (map f l) -> In x l -> In y l -> f x = f y -> x = y.
Proof.
  induction l as [|a l IH]; simpl; [intros _ []|].
  intros Hd Hx Hy Hf. inversion Hd as [|b l' Hn Hd' Heq]; subst.
  destruct Hx as [<-|Hx], Hy as [<-|Hy]; auto.
  - exfalso; apply Hn. rewrite Hf. apply in_map; exact Hy.
  - exfalso; apply Hn. rewrite <- Hf. apply in_map; exact Hx.
Qed.

Lemma save_code_same_codes db ic r0 :
  ids_ok db -> In r0 (invite_codes db) -> ic_ID r0 = ic_ID ic -> Code r0 = Code ic ->
  map Code (invite_codes (save_code db ic)) = map Code (invite_codes db).
Proof.
  intros H Hin Hid Hc. unfold save_code; simpl. rewrite map_map.
  apply map_ext_in. intros r Hr.
  destruct (Nat.eqb (ic_ID r) (ic_ID ic)) eqn:E; [|reflexivity].
  apply Nat.eqb_eq in E. rewrite <- Hid in E.
  rewrite (ids_ok_unique db r r0 H Hr Hin E). exact (eq_sym Hc).
Qed.

Lemma soft_delete_codes db id :
  map Code (invite_codes (soft_delete_code db id)) = map Code (invite_codes db).
Proof.
  unfold soft_delete_code; simpl. rewrite map_map.
  apply map_ext. intros r. destruct (_ && _); reflexivity.
Qed.

Lemma UpdateInviteCodeStatus_code f db id status :
  match UpdateInviteCodeStatus f db id status with
  | (Ok ic, db') => db' = save_code db ic /\
      exists r0, In r0 (invite_codes db) /\ ic_ID r0 = ic_ID ic /\ Code r0 = Code ic
  | (Err _, db') => db' = db
  end.
Proof.
  unfold UpdateInviteCodeStatus.
  destruct (read_fails f); [reflexivity|].
  destruct (first_by_id db id) as [ic|] eqn:E; [|reflexivity].
  destruct (save_fails f); [reflexivity|].
  unfold first_by_id in E. apply find_some in E as [Hin _].
  split; [reflexivity|]. exists ic. auto.
Qed.

Lemma CreateInviteCodeHandler_fresh draws fails db user req ic db' :
  CreateInviteCodeHandler draws fails db user req = Some (RespCreated ic, db') ->
  ~ In (Code ic) (map Code (invite_codes db)).
Proof.
  unfold CreateInviteCodeHandler.
  destruct user; [|discriminate].
  destruct (negb (bind_create_request req)); [discriminate|].
  unfold CreateInviteCode.
  destruct (GenerateInviteCode db draws) as [[code|e]|]; try discriminate.
  destruct fails; [discriminate|].
  unfold create_code. destruct (existsb _ _) eqn:Ex; [discriminate|].
  intros E; injection E as <- _. simpl. intros Hin.
  apply in_map_iff in Hin as (r & Hc & Hr).
  apply Bool.not_true_iff_false in Ex. apply Ex.
  apply existsb_exists. exists r. rewrite Hc, String.eqb_refl. auto.
Qed.

Lemma codes_unique_exec_op db op :
  ids_ok db -> codes_unique db -> codes_unique (exec_op db op).
Proof.
  unfold codes_unique; intros Hi H.
  destruct op as [draws fails user req|f code userID ip ua|f id status|f id]; simpl.
  - pose proof (CreateInviteCodeHandler_shape draws fails db user req) as Hs.
    destruct (CreateInviteCodeHandler draws fails db user req) as [[resp db']|] eqn:E; auto.
    destruct resp; try (subst; exact H).
    apply CreateInviteCodeHandler_fresh in E.
    destruct Hs as (_ & _ & _ & ->). simpl. rewrite map_app. simpl.
    apply NoDup_app; [exact H|constructor; [intros []|constructor]|].
    intros x Hx [<-|[]]. exact (E Hx).
  - destruct (UseInviteCode f db code userID ip ua) as [[ic'|e] db'] eqn:E; simpl.
    + apply UseInviteCode_ok_shape in E as (ic & V & -> & ->).
      apply ValidateInviteCode_ok in V as (_ & Hf & _).
      apply first_by_code_some in Hf as (Hin & _).
      rewrite create_usage_codes, (save_code_same_codes db (bump ic) ic); auto.
    + apply UseInviteCode_err_db in E; subst; exact H.
  - pose proof (UpdateInviteCodeStatus_code f db id status) as Hs.
    destruct (UpdateInviteCodeStatus f db id status) as [[ic|e] db']; simpl.
    + destruct Hs as (-> & r0 & Hin & Hid & Hc).
      rewrite (save_code_same_codes db ic r0); auto.
    + subst; exact H.
  - unfold DeleteInviteCode. destruct (save_fails f); auto.
    destruct (first_by_id db id); [|exact H].
    cbn [snd]. rewrite soft_delete_codes. exact H.
Qed.

(** The invariants of every store reached by the HTTP API from the empty
    store. *)
Definition reachable_ok (db : DB) : Prop :=
  ids_ok db /\ codes_unique db /\ ledger_ok db /\ inv db.

Lemma reachable_ok_run_ops ops : reachable_ok (run_ops ops empty_db).
Proof.
  split; [|split; [|split]].
  - unfold run_ops. assert (H : ids_ok empty_db) by (intros [|k] r E; discriminate).
    revert H; generalize empty_db.
    induction ops as [|op ops IH]; simpl; auto.
    intros d H; apply IH, ids_ok_exec_op, H.
  - unfold run_ops.
    assert (H : ids_ok empty_db /\ codes_unique empty_db)
      by (split; [intros [|k] r E; discriminate|constructor]).
    revert H; generalize empty_db.
    induction ops as [|op ops IH]; simpl; [tauto|].
    intros d [H1 H2]; apply IH; split;
      [apply ids_ok_exec_op|apply codes_unique_exec_op]; auto.
  - apply sequential_ledger_complete.
  - apply inv_run_ops. constructor.
Qed.

Lemma reachable_ok_run_api ops : reachable_ok (run_api ops empty_db).
Proof.
  destruct (run_api_as_run_ops ops empty_db) as [ops' ->].
  apply reachable_ok_run_ops.
Qed.

Lemma UpdateInviteCodeStatusHandler_unchanged fget fupd db user id status resp db' :
  UpdateInviteCodeStatusHandler fget fupd db user id status = (resp, db') ->
  (forall ic, resp <> RespSuccess ic) -> db' = db.
Proof.
  unfold UpdateInviteCodeStatusHandler.
  destruct user as [u|]; [|intros E; injection E as _ <-; auto].
  destruct (bind_status status); simpl; [|intros E; injection E as _ <-; auto].
  destruct (if read_fails fget then None else first_by_id db id) as [ic|];
    [|intros E; injection E as _ <-; auto].
  destruct (negb _ && negb _); [intros E; injection E as _ <-; auto|].
  pose proof (UpdateInviteCodeStatus_shape fupd db id status) as Hs.
  destruct (UpdateInviteCodeStatus fupd db id status) as [[ic'|e] d].
  - intros E Hn; injection E as <- _. exfalso; exact (Hn ic' eq_refl).
  - intros E _; injection E as _ <-. exact Hs.
Qed.

Lemma statuses_ok_save db ic :
  statuses_ok db -> known_status (Status ic) = true -> statuses_ok (save_code db ic).
Proof.
  unfold statuses_ok; rewrite !Forall_forall; intros H Hk r Hr.
  apply save_code_new_rows in Hr as [->|Hr]; auto.
Qed.

Lemma statuses_ok_exec_api db op : statuses_ok db -> statuses_ok (exec_api db op).
Proof.
  intros H; destruct op as [draws fails user req|f code userID ip ua|fget fupd user id status|fget fdel user id]; simpl.
  - pose proof (CreateInviteCodeHandler_shape draws fails db user req) as Hs.
    destruct (CreateInviteCodeHandler draws fails db user req) as [[resp db']|]; auto.
    destruct resp; try (subst; exact H).
    destruct Hs as (Hst & _ & _ & ->). unfold statuses_ok; simpl.
    apply Forall_app; split; [exact H|constructor; [|constructor]].
    rewrite Hst. reflexivity.
  - destruct (UseInviteCode f db code userID ip ua) as [[ic'|e] db'] eqn:E; simpl.
    + apply UseInviteCode_ok_shape in E as (ic & V & -> & ->).
      apply ValidateInviteCode_ok in V as (_ & Hf & _).
      apply first_by_code_some in Hf as (Hin & _).
      apply statuses_ok_save; auto.
      unfold bump; simpl. destruct (_ >=? _); [reflexivity|].
      unfold statuses_ok in H; rewrite Forall_forall in H; auto.
    + apply UseInviteCode_err_db in E; subst; exact H.
  - pose proof (UpdateInviteCodeStatusHandler_effect fget fupd db user id status) as He.
    destruct (UpdateInviteCodeStatusHandler fget fupd db user id status) as [resp db'] eqn:E.
    simpl.
    destruct resp as [| | | | | | |ic];
      try (rewrite (UpdateInviteCodeStatusHandler_unchanged _ _ _ _ _ _ _ _ E);
           [exact H|discriminate]).
    destruct He as (Hst & _ & U).
    pose proof (UpdateInviteCodeStatus_code fupd db id status) as Hc.
    rewrite U in Hc. destruct Hc as (-> & _).
    apply statuses_ok_save; auto.
    destruct Hst as [-> | ->]; reflexivity.
  - destruct (DeleteInviteCodeHandler_effect fget fdel db user id) as [-> | ->]; auto.
    unfold DeleteInviteCode. destruct (save_fails fdel); auto.
    destruct (first_by_id db id); [|exact H].
    unfold statuses_ok, soft_delete_code; simpl. apply Forall_map.
    eapply Forall_impl; [|exact H]. intros r Hr. destruct (_ && _); exact Hr.
Qed.

Lemma statuses_ok_run_api ops : statuses_ok (run_api ops empty_db).
Proof.
  unfold run_api. assert (H : statuses_ok empty_db) by constructor.
  revert H; generalize empty_db.
  induction ops as [|op ops IH]; simpl; auto.
  intros d H; apply IH, statuses_ok_exec_api, H.
Qed.

Lemma status_counts_partition (l : list InviteCode) :
  Forall (fun r => known_status (Status r) = true) l ->
  (List.length (filter (fun r => String.eqb (Status r) InviteCodeStatusActive) l) +
   List.length (filter (fun r => String.eqb (Status r) InviteCodeStatusUsed) l) +
   List.length (filter (fun r => String.eqb (Status r) InviteCodeStatusDisabled) l))%nat =
  List.length l.
Proof.
  induction l as [|x l IH]; [reflexivity|].
  intros H; inversion H as [|y l' Hx Hl]; subst.
  specialize (IH Hl). cbn [filter List.length].
  unfold known_status, InviteCodeStatusActive, InviteCodeStatusUsed,
    InviteCodeStatusDisabled in *.
  destruct (String.eqb (Status x) "active") eqn:E1,
           (String.eqb (Status x) "used") eqn:E2,
           (String.eqb (Status x) "disabled") eqn:E3;
    simpl in Hx; try discriminate;
    try (apply String.eqb_eq in E1; apply String.eqb_eq in E2; congruence);
    try (apply String.eqb_eq in E1; apply String.eqb_eq in E3; congruence);
    try (apply String.eqb_eq in E2; apply String.eqb_eq in E3; congruence);
    cbn [List.length]; lia.
Qed.

Lemma filter_orb_length {A} (f g : A -> bool) l :
  (forall x, In x l -> f x = true -> g x = false) ->
  List.length (filter (fun x => f x || g x) l) =
  (List.length (filter f l) + List.length (filter g l))%nat.
Proof.
  induction l as [|x l IH]; [reflexivity|]; intros H.
  assert (IH' := IH (fun y Hy => H y (or_intror Hy))).
  cbn [filter].
  destruct (f x) eqn:Ef; [rewrite (H x (or_introl eq_refl) Ef)|destruct (g x)];
    cbn [orb List.length]; lia.
Qed.

Lemma NoDup_map_filter {A B} (f : A -> B) (p : A -> bool) l :
  NoDup (map f l) -> NoDup (map f (filter p l)).
Proof.
  induction l as [|x l IH]; simpl; [auto|]; intros H.
  inversion H as [|b l' Hn Hd]; subst.
  destruct (p x); simpl; auto.
  constructor; auto.
  intros Hin; apply Hn. apply in_map_iff in Hin as (y & Hy & Hyin).
  apply filter_In in Hyin as [Hyin _]. rewrite <- Hy. apply in_map; exact Hyin.
Qed.

Lemma sum_used_count_ledger db L :
  NoDup (map ic_ID L) ->
  (forall r, In r L -> Z.of_nat (ledger_count db (ic_ID r)) = UsedCount r) ->
  sum_used_count L =
  Z.of_nat (List.length (filter (fun u => existsb (fun r => Nat.eqb (ic_ID r) (InviteCodeID u)) L)
                                (invite_code_usages db))).
Proof.
  induction L as [|r L IH]; intros Hd Hc.
  - simpl. induction (invite_code_usages db) as [|u us IHu]; simpl; auto.
  - inversion Hd as [|b l' Hn Hd']; subst. cbn [existsb sum_used_count fold_right].
    rewrite filter_orb_length.
    + rewrite Nat2Z.inj_add. fold (sum_used_count L).
      rewrite IH by (auto; intros r' Hr'; apply Hc; right; exact Hr').
      rewrite <- (Hc r (or_introl eq_refl)). unfold ledger_count.
      f_equal. f_equal. f_equal. apply filter_ext. intros u. apply Nat.eqb_sym.
    + intros u _ Hf. apply Nat.eqb_eq in Hf.
      apply Bool.not_true_iff_false. intros Hx.
      apply existsb_exists in Hx as (r' & Hr' & E). apply Nat.eqb_eq in E.
      apply Hn. rewrite Hf, <- E. apply in_map; exact Hr'.
Qed.

(** GetInviteCodeStats after any sequence of API calls from the empty
    store: the active, used and disabled counts add up to the total of
    live codes (the HTTP routes only ever store these three statuses), and
    total_usage, the sum of the live codes' usedCount, equals the number of
    ledger rows referencing a live code (the ledger rows of soft-deleted
    codes are not counted). *)
Theorem stats_consistent ops :
  let db := run_api ops empty_db in
  let s := GetInviteCodeStats db in
  (active_codes s + used_codes s + disabled_codes s)%nat = total_codes s /\
  total_usage s =
    Z.of_nat (List.length (filter (fun u => existsb (fun r => Nat.eqb (ic_ID r) (InviteCodeID u))
                                                    (live_codes db))
                                  (invite_code_usages db))).
Proof.
  intros db s.
  destruct (reachable_ok_run_api ops) as (Hi & _ & Hl & _).
  pose proof (statuses_ok_run_api ops) as Hs.
  split.
  - apply status_counts_partition.
    unfold statuses_ok in Hs; rewrite Forall_forall in *.
    intros r Hr. unfold live_codes in Hr. apply filter_In in Hr as [Hr _]. auto.
  - apply sum_used_count_ledger.
    + apply NoDup_map_filter, ids_ok_NoDup, Hi.
    + intros r Hr. unfold live_codes in Hr. apply filter_In in Hr as [Hr _].
      destruct Hl as (_ & _ & H3). apply H3, Hr.
Qed.

Lemma find_none_forall {A} (p : A -> bool) l :
  (forall x, In x l -> p x = false) -> find p l = None.
Proof.
  intros H. destruct (find p l) eqn:E; [|reflexivity].
  apply find_some in E as [Hin Hp]. rewrite (H a Hin) in Hp. discriminate.
Qed.

Lemma first_by_id_some db id ic :
  first_by_id db id = Some ic ->
  In ic (invite_codes db) /\ ic_ID ic = id /\ DeletedAt_Valid ic = false.
Proof.
  unfold first_by_id; intros H.
  apply find_some in H as [Hin Hp].
  apply andb_prop in Hp as [Hc Hd].
  apply Nat.eqb_eq in Hc. apply negb_true_iff in Hd. auto.
Qed.

(** Deleting a live code after any sequence of API calls: DeleteInviteCode
    succeeds and soft-deletes the row; afterwards the code string is no
    longer found (validation and redemption answer not-found and write
    nothing), a second delete of the same key answers not-found, the
    string stays taken in the unique index (no new row can be created with
    it), and the ledger rows of the code are kept. *)
Theorem delete_then_not_found ops f id r :
  let db := run_api ops empty_db in
  save_fails f = false -> first_by_id db id = Some r ->
  let db' := snd (DeleteInviteCode f db id) in
  fst (DeleteInviteCode f db id) = Ok tt /\
  (forall fv, read_fails fv = false ->
     ValidateInviteCode fv db' (Code r) = Err ErrNotFound) /\
  (forall fu userID ip ua, read_fails fu = false ->
     UseInviteCode fu db' (Code r) userID ip ua = (Err ErrNotFound, db')) /\
  DeleteInviteCode f db' id = (Err ErrNotFound, db') /\
  (forall ic, Code ic = Code r -> create_code db' ic = None) /\
  invite_code_usages db' = invite_code_usages db.
Proof.
  intros db Hs Hf db'.
  destruct (reachable_ok_run_api ops) as (_ & Hu & _ & _). fold db in Hu.
  assert (Hdb' : db' = soft_delete_code db id)
    by (unfold db', DeleteInviteCode; rewrite Hs, Hf; reflexivity).
  destruct (first_by_id_some _ _ _ Hf) as (Hin & Hid & Hd).
  assert (Hnf : first_by_code db' (Code r) = None).
  { apply first_by_code_none. intros r' Hr' Hc. rewrite Hdb' in Hr'.
    unfold soft_delete_code in Hr'; simpl in Hr'.
    apply in_map_iff in Hr' as (r0 & Hr0 & Hin0).
    destruct (Nat.eqb (ic_ID r0) id && negb (DeletedAt_Valid r0)) eqn:E.
    - subst r'. reflexivity.
    - subst r'. assert (r0 = r) as ->.
      { apply (NoDup_map_inj Code (invite_codes db)); auto. }
      rewrite Hid, Nat.eqb_refl, Hd in E. discriminate. }
  split; [|split; [|split; [|split; [|split]]]].
  - unfold DeleteInviteCode. rewrite Hs, Hf. reflexivity.
  - intros fv Hr. unfold ValidateInviteCode, GetInviteCodeByCode. rewrite Hr, Hnf. reflexivity.
  - intros fu userID ip ua Hr. unfold UseInviteCode, ValidateInviteCode, GetInviteCodeByCode.
    rewrite Hr, Hnf. reflexivity.
  - unfold DeleteInviteCode. rewrite Hs.
    replace (first_by_id db' id) with (@None InviteCode); [reflexivity|].
    symmetry. apply find_none_forall. intros r' Hr'. rewrite Hdb' in Hr'.
    unfold soft_delete_code in Hr'; simpl in Hr'.
    apply in_map_iff in Hr' as (r0 & <- & Hin0).
    destruct (Nat.eqb (ic_ID r0) id && negb (DeletedAt_Valid r0)) eqn:E; simpl.
    + apply andb_false_r.
    + exact E.
  - intros ic Hc. unfold create_code.
    replace (existsb (fun r0 => String.eqb (Code r0) (Code ic)) (invite_codes db')) with true;
      [reflexivity|].
    symmetry. apply existsb_exists.
    exists (mkInviteCode (ic_ID r) (Code r) (CreatedByID r) (Status r) (MaxUses r)
              (UsedCount r) (Description r) true).
    split; [|simpl; rewrite Hc; apply String.eqb_refl].
    rewrite Hdb'. unfold soft_delete_code; simpl. apply in_map_iff.
    exists r. rewrite Hid, Nat.eqb_refl, Hd. auto.
  - rewrite Hdb'. reflexivity.
Qed.

(** Ownership checks of the handlers UpdateInviteCodeStatus (after a valid
    status binding), DeleteInviteCode and GetInviteCodeUsages: when the
    code exists and the caller neither created it nor is an admin, each
    answers Forbidden and the store is unchanged; a missing (or
    soft-deleted) code gives NotFound, and no caller gives Unauthorized. *)
Theorem handlers_enforce_ownership fget fupd fdel db user id status page limit :
  read_fails fget = false ->
  (user = None ->
     UpdateInviteCodeStatusHandler fget fupd db user id status = (RespUnauthorized, db) /\
     DeleteInviteCodeHandler fget fdel db user id = (DelUnauthorized, db) /\
     GetInviteCodeUsagesHandler fget db user id page limit = UsagesUnauthorized) /\
  (forall u, user = Some u -> first_by_id db id = None ->
     (bind_status status = true ->
        UpdateInviteCodeStatusHandler fget fupd db user id status = (RespNotFound, db)) /\
     DeleteInviteCodeHandler fget fdel db user id = (DelNotFound, db) /\
     GetInviteCodeUsagesHandler fget db user id page limit = UsagesNotFound) /\
  (forall u ic, user = Some u -> first_by_id db id = Some ic ->
     CreatedByID ic <> auth_ID u -> auth_IsAdmin u = false ->
     (bind_status status = true ->
        UpdateInviteCodeStatusHandler fget fupd db user id status = (RespForbidden, db)) /\
     DeleteInviteCodeHandler fget fdel db user id = (DelForbidden, db) /\
     GetInviteCodeUsagesHandler fget db user id page limit = UsagesForbidden).
Proof.
  intros Hr. split; [|split].
  - intros ->. repeat split.
  - intros u -> Hn.
    unfold UpdateInviteCodeStatusHandler, DeleteInviteCodeHandler, GetInviteCodeUsagesHandler.
    rewrite Hr, Hn. split; [intros ->; reflexivity|split; reflexivity].
  - intros u ic -> Hf Hc Ha.
    unfold UpdateInviteCodeStatusHandler, DeleteInviteCodeHandler, GetInviteCodeUsagesHandler.
    rewrite Hr, Hf, Ha.
    replace (Nat.eqb (CreatedByID ic) (auth_ID u)) with false
      by (symmetry; apply Nat.eqb_neq; exact Hc).
    split; [intros ->; reflexivity|split; reflexivity].
Qed.

(** A delete through the handler succeeds only for the creator of a live
    code or an admin, and then soft-deletes exactly the live row with that
    key; every other answer leaves the store unchanged, except a failed
    service call, which writes nothing either. *)
Theorem delete_handler_success fget fdel db user id resp db' :
  DeleteInviteCodeHandler fget fdel db user id = (resp, db') ->
  (resp = DelSuccess ->
     exists u ic, user = Some u /\ first_by_id db id = Some ic /\
       (CreatedByID ic = auth_ID u \/ auth_IsAdmin u = true) /\
       db' = soft_delete_code db id) /\
  (resp <> DelSuccess -> db' = db).
Proof.
  unfold DeleteInviteCodeHandler.
  destruct user as [u|]; [|intros E; injection E as <- <-; split; [discriminate|auto]].
  destruct (read_fails fget) eqn:Hr; [intros E; injection E as <- <-; split; [discriminate|auto]|].
  destruct (first_by_id db id) as [ic|] eqn:Hf;
    [|intros E; injection E as <- <-; split; [discriminate|auto]].
  destruct (negb (Nat.eqb (CreatedByID ic) (auth_ID u)) && negb (auth_IsAdmin u)) eqn:Ho;
    [intros E; injection E as <- <-; split; [discriminate|auto]|].
  unfold DeleteInviteCode. rewrite Hf.
  destruct (save_fails fdel); simpl; intros E; injection E as <- <-;
    split; try discriminate; auto.
  - intros _. exists u, ic. repeat split; auto.
    apply andb_false_iff in Ho as [Ho|Ho]; apply negb_false_iff in Ho;
      [left; apply Nat.eqb_eq; exact Ho|right; exact Ho].
  - intros H; exfalso; apply H; reflexivity.
Qed.

(** GetInviteCodeUsages after any sequence of API calls: a successful
    answer is given to the creator of the live code or to an admin, its
    total equals the code's usedCount, and it lists at most [limit] ledger
    rows, all of them rows of that code. *)
Theorem usages_listing_matches_count ops fget user id page limit p :
  let db := run_api ops empty_db in
  GetInviteCodeUsagesHandler fget db user id page limit = UsagesSuccess p ->
  exists u ic, user = Some u /\ first_by_id db id = Some ic /\
    (CreatedByID ic = auth_ID u \/ auth_IsAdmin u = true) /\
    Z.of_nat (lp_total p) = UsedCount ic /\
    (forall x, In x (lp_data p) -> InviteCodeID x = id /\ In x (invite_code_usages db)) /\
    (List.length (lp_data p) <= Z.to_nat (lp_limit p))%nat.
Proof.
  intros db E.
  destruct (reachable_ok_run_api ops) as (_ & _ & (_ & _ & Hl) & _). fold db in Hl.
  unfold GetInviteCodeUsagesHandler in E.
  destruct user as [u|]; [|discriminate].
  destruct (read_fails fget); [discriminate|].
  destruct (first_by_id db id) as [ic|] eqn:Hf; [|discriminate].
  destruct (negb (Nat.eqb (CreatedByID ic) (auth_ID u)) && negb (auth_IsAdmin u)) eqn:Ho;
    [discriminate|].
  pose proof (normalize_paging_limit_range page limit) as Hlim.
  destruct (normalize_paging page limit) as [[pg l] o].
  unfold GetUsagesByInviteCode in E. injection E as <-.
  destruct (first_by_id_some _ _ _ Hf) as (Hin & Hid & _).
  exists u, ic. split; [reflexivity|split; [reflexivity|split; [|split; [|split]]]]; simpl.
  - apply andb_false_iff in Ho as [Ho|Ho]; apply negb_false_iff in Ho;
      [left; apply Nat.eqb_eq; exact Ho|right; exact Ho].
  - rewrite <- (Hl ic Hin), Hid. reflexivity.
  - intros x Hx. unfold limit_offset in Hx.
    destruct (0 <=? l); [apply in_firstn_in in Hx|];
    (destruct (0 <? o); [apply in_skipn_in in Hx|]);
    unfold newest_first in Hx; apply in_rev in Hx;
    apply filter_In in Hx as [Hx Hc]; apply Nat.eqb_eq in Hc; auto.
  - unfold limit_offset.
    replace (0 <=? l) with true by (symmetry; apply Z.leb_le; lia).
    apply firstn_le_length.
Qed.

(** Redemptions one after the other (each call returns before the next
    begins), as the registrations of [userIDs] perform them. *)
Fixpoint redeem_all (db : DB) (code : string) (userIDs : list nat)
  : list (result InviteCode) * DB :=
  match userIDs with
  | [] => ([], db)
  | u :: us =>
      let '(r, db1) := UseInviteCode no_faults db code u "unknown" "unknown" in
      let '(rs, db2) := redeem_all db1 code us in
      (r :: rs, db2)
  end.

(** Without overlap there is no overselling: n redemptions one after the
    other of an active live code with [usedCount <= maxUses] succeed for
    the first [min n (maxUses - usedCount)] calls and fail with Exhausted
    for all the later ones; the usedCount grows by the number of successes
    and the ledger by as many rows. *)
Theorem sequential_redemptions_exact db code ic userIDs :
  first_by_code db code = Some ic ->
  Status ic = InviteCodeStatusActive -> 0 <= UsedCount ic <= MaxUses ic ->
  let k := Z.to_nat (MaxUses ic - UsedCount ic) in
  let n := List.length userIDs in
  exists oks,
    fst (redeem_all db code userIDs) =
      (map Ok oks ++ repeat (Err ErrExhausted) (n - k))%list /\
    List.length oks = Nat.min n k /\
    (exists ic', first_by_code (snd (redeem_all db code userIDs)) code = Some ic' /\
       UsedCount ic' = UsedCount ic + Z.of_nat (Nat.min n k)) /\
    List.length (invite_code_usages (snd (redeem_all db code userIDs))) =
      (List.length (invite_code_usages db) + Nat.min n k)%nat.
Proof.
  intros Hf Hs Hc k n. subst k n.
  assert (Hst : UsedCount ic < MaxUses ic -> Status ic = InviteCodeStatusActive) by auto.
  clear Hs. revert db ic Hf Hst Hc.
  induction userIDs as [|u us IH]; intros db ic Hf Hst Hc.
  - exists []. simpl. split; [reflexivity|split; [reflexivity|split]].
    + exists ic. split; [exact Hf|lia].
    + lia.
  - destruct (first_by_code_some _ _ _ Hf) as (Hin & Hcode & Hd).
    destruct (Z.lt_ge_cases (UsedCount ic) (MaxUses ic)) as [Hlt|Hge].
    + (* the call succeeds *)
      assert (Hcan : CanBeUsed ic = true) by (apply CanBeUsed_true; auto).
      assert (Hu : UseInviteCode no_faults db code u "unknown" "unknown" =
                   (Ok (bump ic), snd (create_usage (save_code db (bump ic))
                                        (mkInviteCodeUsage 0 (ic_ID ic) u "unknown" "unknown")))).
      { unfold UseInviteCode, ValidateInviteCode, GetInviteCodeByCode.
        simpl read_fails. rewrite Hf, Hcan. reflexivity. }
      set (db1 := snd (create_usage (save_code db (bump ic))
                         (mkInviteCodeUsage 0 (ic_ID ic) u "unknown" "unknown"))) in Hu.
      assert (Hf1 : first_by_code db1 code = Some (bump ic)).
      { unfold db1. unfold first_by_code. rewrite create_usage_codes.
        apply (save_code_first_by_code db code ic); auto. }
      assert (Hst1 : UsedCount (bump ic) < MaxUses (bump ic) ->
                     Status (bump ic) = InviteCodeStatusActive).
      { unfold bump; simpl. destruct (Z.geb_spec (UsedCount ic + 1) (MaxUses ic)); auto; lia. }
      destruct (IH db1 (bump ic) Hf1 Hst1) as (oks & E & Hl & (ic' & Hf' & Hc') & Hled);
        [simpl; lia|].
      exists (bump ic :: oks). simpl. rewrite Hu.
      destruct (redeem_all db1 code us) as [rs db2] eqn:R. simpl in *.
      replace (Z.to_nat (MaxUses ic - UsedCount ic))
        with (S (Z.to_nat (MaxUses ic - (UsedCount ic + 1)))) by lia.
      split; [rewrite E; reflexivity|split; [simpl; lia|split]].
      * exists ic'. split; [exact Hf'|]. rewrite Hc'. lia.
      * rewrite Hled. unfold db1, create_usage, save_code. simpl.
        rewrite length_app. simpl. lia.
    + (* exhausted: every call fails and writes nothing *)
      assert (Hall : forall us', redeem_all db code us' =
                       (repeat (Err ErrExhausted) (List.length us'), db)).
      { intros us'. induction us' as [|u' us' IH']; [reflexivity|].
        simpl.
        assert (Hx : UseInviteCode no_faults db code u' "unknown" "unknown" =
                     (Err ErrExhausted, db)).
        { unfold UseInviteCode, ValidateInviteCode, GetInviteCodeByCode.
          simpl read_fails. rewrite Hf.
          assert (CanBeUsed ic = false) as ->
            by (destruct (CanBeUsed ic) eqn:E; [apply CanBeUsed_true in E; lia|reflexivity]).
          unfold IsExhausted. rewrite Z.geb_leb.
          replace (MaxUses ic <=? UsedCount ic) with true by (symmetry; apply Z.leb_le; lia).
          reflexivity. }
        rewrite Hx, IH'. reflexivity. }
      exists []. rewrite Hall. simpl.
      replace (Z.to_nat (MaxUses ic - UsedCount ic)) with 0%nat by lia.
      split; [reflexivity|split; [reflexivity|split]].
      * exists ic. split; [exact Hf|lia].
      * lia.
Qed.

(* ------------------------------------------------------------------ *)
(** * Register: the other paths *)

(** Register writes nothing when it fails before the token step: an
    invalid invite code, an e-mail already taken, a hashing failure or a
    failed user INSERT leave every table as it was. *)
Theorem register_early_errors_write_nothing fa fv fu db req e :
  fst (Register fa fv fu db req) = RegErr e -> e <> RegTokenFailed ->
  snd (Register fa fv fu db req) = db.
Proof.
  unfold Register.
  destruct (if String.eqb (reg_InviteCode req) "" then Ok None else _) as [ic|e0];
    [|intros; reflexivity].
  destruct (GetUserByEmail db (reg_Email req)); [intros; reflexivity|].
  destruct (hash_fails fa); [intros; reflexivity|].
  destruct (create_user_fails fa); [intros; reflexivity|].
  destruct (CreateUser db _) as [user db1].
  destruct (token_fails fa); simpl; intros H Hn; [injection H as <-; contradiction|discriminate].
Qed.

(** A token failure is reported after the writes: with the token step
    failing, Register answers with the token error but leaves the store
    exactly as the successful registration does (the user row exists and
    the invite use is spent); nothing is rolled back. *)
Theorem register_token_failure_keeps_writes fa fv fu db req u :
  token_fails fa = true ->
  fst (Register (mkAuthFaults (hash_fails fa) (create_user_fails fa) false) fv fu db req) = RegOk u ->
  Register fa fv fu db req =
    (RegErr RegTokenFailed,
     snd (Register (mkAuthFaults (hash_fails fa) (create_user_fails fa) false) fv fu db req)) /\
  In u (users (snd (Register fa fv fu db req))).
Proof.
  intros Ht. unfold Register; simpl.
  destruct (if String.eqb (reg_InviteCode req) "" then Ok None else _) as [ic|e0];
    [|discriminate].
  destruct (GetUserByEmail db (reg_Email req)); [discriminate|].
  destruct (hash_fails fa); [discriminate|].
  destruct (create_user_fails fa); [discriminate|].
  rewrite Ht. simpl. intros H. injection H as <-.
  split; [reflexivity|].
  destruct ic as [ic|]; simpl.
  - rewrite UseInviteCode_users. simpl. apply in_or_app; right; left; reflexivity.
  - apply in_or_app; right; left; reflexivity.
Qed.

(** Register without an invite code never touches the invite tables
    (whatever the faults of the invite service); a successful one appends
    the user, with no invite code recorded on it. *)
Theorem register_without_code fa fv fu db req :
  reg_InviteCode req = "" ->
  invite_codes (snd (Register fa fv fu db req)) = invite_codes db /\
  invite_code_usages (snd (Register fa fv fu db req)) = invite_code_usages db /\
  forall u, fst (Register fa fv fu db req) = RegOk u ->
    InviteCodeIDField u = None /\ InviteCodeUsed u = None /\
    users (snd (Register fa fv fu db req)) = (users db ++ [u])%list.
Proof.
  intros He. unfold Register. rewrite He. simpl.
  destruct (GetUserByEmail db (reg_Email req)); [repeat split; discriminate|].
  destruct (hash_fails fa); [repeat split; discriminate|].
  destruct (create_user_fails fa); [repeat split; discriminate|].
  destruct (token_fails fa); simpl; (split; [reflexivity|split; [reflexivity|]]);
    intros u H; [discriminate|injection H as <-; auto].
Qed.

(** A registration with a usable invite code and no failures: the new user
    gets the key held by the users AUTO_INCREMENT counter and records the
    code; the code's row is saved with
    [usedCount + 1] (and status used when that reaches maxUses), and one
    ledger row links the code to the new user. *)
Theorem register_with_code_redeems fa db req ic :
  reg_InviteCode req <> "" ->
  first_by_code db (reg_InviteCode req) = Some ic -> CanBeUsed ic = true ->
  GetUserByEmail db (reg_Email req) = None ->
  hash_fails fa = false -> create_user_fails fa = false -> token_fails fa = false ->
  exists u usage db',
    Register fa no_faults no_faults db req = (RegOk u, db') /\
    user_ID u = users_auto_increment db /\
    InviteCodeIDField u = Some (ic_ID ic) /\ InviteCodeUsed u = Some (reg_InviteCode req) /\
    users db' = (users db ++ [u])%list /\
    first_by_code db' (reg_InviteCode req) = Some (bump ic) /\
    invite_code_usages db' = (invite_code_usages db ++ [usage])%list /\
    InviteCodeID usage = ic_ID ic /\ UsedByID usage = user_ID u.
Proof.
  intros Hne Hf Hc He Hh Hcu Ht.
  destruct (first_by_code_some _ _ _ Hf) as (Hin & Hcode & Hd).
  assert (V : ValidateInviteCode no_faults db (reg_InviteCode req) = Ok ic).
  { unfold ValidateInviteCode, GetInviteCodeByCode. simpl read_fails.
    rewrite Hf, Hc. reflexivity. }
  unfold Register. apply String.eqb_neq in Hne. rewrite Hne, V, He, Hh, Hcu, Ht.
  set (u := mkUser (users_auto_increment db) (reg_Email req) (Some (ic_ID ic)) (Some (Code ic))).
  set (db1 := mkDB (invite_codes db) (invite_code_usages db) (users db ++ [u])%list
                (S (users_auto_increment db))).
  assert (Hf1 : first_by_code db1 (Code ic) = Some ic) by (rewrite Hcode; exact Hf).
  assert (Hc1 : CanBeUsed ic = true) by exact Hc.
  change (CreateUser db (mkUser 0 (reg_Email req) (option_map ic_ID (Some ic))
                             (option_map Code (Some ic)))) with (u, db1).
  cbv beta iota.
  assert (U : UseInviteCode no_faults db1 (Code ic) (user_ID u) "unknown" "unknown" =
              (Ok (bump ic), snd (create_usage (save_code db1 (bump ic))
                 (mkInviteCodeUsage 0 (ic_ID ic) (user_ID u) "unknown" "unknown")))).
  { unfold UseInviteCode, ValidateInviteCode, GetInviteCodeByCode. simpl read_fails.
    rewrite Hf1, Hc1. reflexivity. }
  rewrite U. simpl snd.
  eexists u, _, _. split; [reflexivity|].
  split; [reflexivity|split; [reflexivity|split; [simpl; rewrite Hcode; reflexivity|]]].
  split; [reflexivity|split; [|split; [reflexivity|split; reflexivity]]].
  change (first_by_code (save_code db1 (bump ic)) (reg_InviteCode req) = Some (bump ic)).
  apply (save_code_first_by_code db1 _ ic); auto.
Qed.

(* ------------------------------------------------------------------ *)
(** * Code encoding is injective *)

Lemma hex_digit_inj n m : (n < 16)%nat -> (m < 16)%nat -> hex_digit n = hex_digit m -> n = m.
Proof.
  intros Hn Hm.
  do 16 (destruct n as [|n]; [do 16 (destruct m as [|m]; [discriminate || reflexivity|]); lia|]).
  lia.
Qed.

(** The encoding step of GenerateInviteCode loses nothing: two byte
    strings with the same [EncodeToString] are equal, so distinct random
    draws give distinct codes (and a code determines its draw). *)
Theorem EncodeToString_injective bs1 bs2 :
  EncodeToString bs1 = EncodeToString bs2 -> bs1 = bs2.
Proof.
  revert bs2; induction bs1 as [|b1 bs1 IH]; intros [|b2 bs2]; cbn [EncodeToString];
    try discriminate; [reflexivity|].
  intros H.
  assert (Hhi : hex_digit (Nat.div (Byte.to_nat b1) 16) = hex_digit (Nat.div (Byte.to_nat b2) 16))
    by congruence.
  assert (Hlo : hex_digit (Nat.modulo (Byte.to_nat b1) 16) =
                hex_digit (Nat.modulo (Byte.to_nat b2) 16)) by congruence.
  assert (Hrest : EncodeToString bs1 = EncodeToString bs2) by congruence.
  clear H.
  pose proof (Byte.to_nat_bounded b1) as B1. pose proof (Byte.to_nat_bounded b2) as B2.
  apply hex_digit_inj in Hhi; [|apply Nat.Div0.div_lt_upper_bound; lia
                               |apply Nat.Div0.div_lt_upper_bound; lia].
  apply hex_digit_inj in Hlo; [|apply Nat.mod_upper_bound; lia|apply Nat.mod_upper_bound; lia].
  assert (Hv : Byte.to_nat b1 = Byte.to_nat b2).
  { rewrite (Nat.div_mod_eq (Byte.to_nat b1) 16), (Nat.div_mod_eq (Byte.to_nat b2) 16).
    rewrite Hhi, Hlo. reflexivity. }
  assert (b1 = b2) as ->.
  { pose proof (Byte.of_to_nat b1) as E1. pose proof (Byte.of_to_nat b2) as E2.
    rewrite Hv in E1. congruence. }
  f_equal. apply IH, Hrest.
Qed.

(* ------------------------------------------------------------------ *)
(** * AuthService.generateUniqueUsername (internal/service/auth.go) *)

(** [strings.ReplaceAll(s, c, "")] for a one-character [c]. *)
Fixpoint remove_char (c : ascii) (s : string) : string :=
  match s with
  | EmptyString => EmptyString
  | String x rest =>
      if Ascii.eqb x c then remove_char c rest else String x (remove_char c rest)
  end.

Definition is_upper (c : ascii) : bool :=
  Nat.leb 65 (nat_of_ascii c) && Nat.leb (nat_of_ascii c) 90.

(** [strings.ToLower] on ASCII text (its ASCII path): A-Z are mapped to
    a-z. On other text the Go function lowercases every Unicode letter,
    which this definition does not model; the theorems about usernames
    assume an ASCII base name. *)
Definition lower_ascii (c : ascii) : ascii :=
  if is_upper c then ascii_of_nat (nat_of_ascii c + 32) else c.

Fixpoint ToLower (s : string) : string :=
  match s with
  | EmptyString => EmptyString
  | String c rest => String (lower_ascii c) (ToLower rest)
  end.

(** [strconv.Itoa] / [strconv.FormatInt(_, 10)] on a 64-bit int (at most
    19 digits, so 64 rounds of the digit loop suffice). *)
Fixpoint digits_of (fuel : nat) (n : Z) (acc : string) : string :=
  match fuel with
  | O => acc
  | S fuel' =>
      let acc' := String (ascii_of_nat (48 + Z.to_nat (n mod 10))) acc in
      if n <? 10 then acc' else digits_of fuel' (n / 10) acc'
  end.

Definition Itoa (z : Z) : string :=
  if z <? 0 then String "-" (digits_of 64 (- z) "") else digits_of 64 z "".

(** The cleaning of the base name: "." removed, lowercased, "+" and "_"
    removed, "user" appended when fewer than 3 bytes remain. *)
Definition clean_username (baseUsername : string) : string :=
  let b := remove_char "_" (remove_char "+" (ToLower (remove_char "." baseUsername))) in
  if Nat.ltb (String.length b) 3 then b ++ "user" else b.

(** The ten attempts with a random suffix: [draws] are the values of
    [rand.Intn(9999)]; [taken] is usernameExists (a store error counts as
    taken). *)
Fixpoint try_suffixes (taken : string -> bool) (base : string) (draws : list Z)
  : option string :=
  match draws with
  | [] => None
  | d :: ds =>
      let candidate := base ++ Itoa (d + 1) in
      if negb (taken candidate) then Some candidate else try_suffixes taken base ds
  end.

(** generateUniqueUsername; [timestamp] is [time.Now().Unix()]. *)
Definition generateUniqueUsername (taken : string -> bool) (draws : list Z)
    (timestamp : Z) (baseUsername : string) : string :=
  let base := clean_username baseUsername in
  if negb (taken base) then base else
  match try_suffixes taken base (firstn 10 draws) with
  | Some candidate => candidate
  | None => base ++ Itoa timestamp
  end.

Fixpoint string_forall (p : ascii -> bool) (s : string) : bool :=
  match s with
  | EmptyString => true
  | String c rest => p c && string_forall p rest
  end.

Definition is_ascii_char (c : ascii) : bool := Nat.ltb (nat_of_ascii c) 128.

Definition no_separator (c : ascii) : bool :=
  negb (Ascii.eqb c "." || Ascii.eqb c "+" || Ascii.eqb c "_").

Lemma string_forall_app p s t :
  string_forall p (s ++ t) = string_forall p s && string_forall p t.
Proof. induction s as [|c s IH]; simpl; [reflexivity|]. rewrite IH. apply andb_assoc. Qed.

Lemma string_forall_impl (p q : ascii -> bool) s :
  (forall c, p c = true -> q c = true) -> string_forall p s = true -> string_forall q s = true.
Proof.
  intros H; induction s as [|c s IH]; simpl; [reflexivity|].
  intros E; apply andb_prop in E as [E1 E2]. rewrite (H c E1), (IH E2). reflexivity.
Qed.

Lemma string_forall_and (p q : ascii -> bool) s :
  string_forall p s = true -> string_forall q s = true ->
  string_forall (fun c => p c && q c) s = true.
Proof.
  induction s as [|c s IH]; simpl; [reflexivity|].
  intros E1 E2; apply andb_prop in E1 as [E1 E1']; apply andb_prop in E2 as [E2 E2'].
  rewrite E1, E2, (IH E1' E2'). reflexivity.
Qed.

Lemma remove_char_forall p c s :
  string_forall p s = true -> string_forall p (remove_char c s) = true.
Proof.
  induction s as [|x s IH]; simpl; [reflexivity|].
  intros E; apply andb_prop in E as [E1 E2].
  destruct (Ascii.eqb x c); simpl; rewrite ?E1, IH; auto.
Qed.

Lemma remove_char_removes c s :
  string_forall (fun x => negb (Ascii.eqb x c)) (remove_char c s) = true.
Proof.
  induction s as [|x s IH]; simpl; [reflexivity|].
  destruct (Ascii.eqb x c) eqn:E; simpl; [exact IH|]. rewrite E, IH. reflexivity.
Qed.

Ltac all_ascii c :=
  destruct c as [[] [] [] [] [] [] [] []]; reflexivity.

Lemma lower_ascii_not_upper c : is_upper (lower_ascii c) = false.
Proof. all_ascii c. Qed.

Lemma lower_ascii_dot c : Ascii.eqb (lower_ascii c) "." = Ascii.eqb c ".".
Proof. all_ascii c. Qed.

Lemma ToLower_forall_not_upper s :
  string_forall (fun c => negb (is_upper c)) (ToLower s) = true.
Proof.
  induction s as [|c s IH]; simpl; [reflexivity|]. rewrite lower_ascii_not_upper, IH. reflexivity.
Qed.

Lemma ToLower_keeps_no_dot s :
  string_forall (fun x => negb (Ascii.eqb x ".")) s = true ->
  string_forall (fun x => negb (Ascii.eqb x ".")) (ToLower s) = true.
Proof.
  induction s as [|c s IH]; simpl; [reflexivity|].
  intros E; apply andb_prop in E as [E1 E2]. rewrite lower_ascii_dot, E1, IH; auto.
Qed.

Lemma string_length_app s t :
  String.length (s ++ t) = (String.length s + String.length t)%nat.
Proof. induction s as [|c s IH]; simpl; auto. Qed.

Lemma try_suffixes_some taken base ds c :
  try_suffixes taken base ds = Some c ->
  exists d, In d ds /\ c = base ++ Itoa (d + 1) /\ taken c = false.
Proof.
  induction ds as [|d ds IH]; simpl; [discriminate|].
  destruct (taken (base ++ Itoa (d + 1))) eqn:E; simpl.
  - intros H; destruct (IH H) as (d' & Hin & -> & Ht); eauto.
  - intros H; injection H as <-. eauto.
Qed.

Lemma try_suffixes_none taken base ds :
  try_suffixes taken base ds = None ->
  forall d, In d ds -> taken (base ++ Itoa (d + 1)) = true.
Proof.
  induction ds as [|d ds IH]; simpl; [intros _ _ []|].
  destruct (taken (base ++ Itoa (d + 1))) eqn:E; simpl; [|discriminate].
  intros H d' [<-|Hin]; auto.
Qed.

(** The name chosen by generateUniqueUsername for an ASCII base name
    starts with the cleaned base, which has at least 3 bytes, no ".", "+"
    or "_" and no uppercase letter. *)
Theorem username_shape taken draws timestamp baseUsername :
  string_forall is_ascii_char baseUsername = true ->
  let b := clean_username baseUsername in
  string_forall no_separator b = true /\
  string_forall (fun c => negb (is_upper c)) b = true /\
  (3 <= String.length b)%nat /\
  exists suffix, generateUniqueUsername taken draws timestamp baseUsername = b ++ suffix.
Proof.
  intros _ b.
  set (b0 := remove_char "_" (remove_char "+" (ToLower (remove_char "." baseUsername)))).
  assert (Hsep : string_forall no_separator b0 = true).
  { unfold b0.
    pose proof (remove_char_removes "_" (remove_char "+" (ToLower (remove_char "." baseUsername))))
      as H3.
    pose proof (remove_char_forall _ "_" _ (remove_char_removes "+"
                  (ToLower (remove_char "." baseUsername)))) as H2.
    pose proof (remove_char_forall _ "_" _ (remove_char_forall _ "+" _
                  (ToLower_keeps_no_dot _ (remove_char_removes "." baseUsername)))) as H1.
    pose proof (string_forall_and _ _ _ (string_forall_and _ _ _ H1 H2) H3) as H.
    revert H; apply string_forall_impl. intros c Hc. unfold no_separator.
    destruct (Ascii.eqb c "."), (Ascii.eqb c "+"), (Ascii.eqb c "_"); simpl in *;
      auto; discriminate. }
  assert (Hup : string_forall (fun c => negb (is_upper c)) b0 = true).
  { unfold b0. apply remove_char_forall, remove_char_forall, ToLower_forall_not_upper. }
  assert (Hb : b = if Nat.ltb (String.length b0) 3 then b0 ++ "user" else b0) by reflexivity.
  split; [|split; [|split]].
  - rewrite Hb. destruct (Nat.ltb _ _); [|exact Hsep].
    rewrite string_forall_app, Hsep. reflexivity.
  - rewrite Hb. destruct (Nat.ltb _ _); [|exact Hup].
    rewrite string_forall_app, Hup. reflexivity.
  - rewrite Hb. destruct (Nat.ltb (String.length b0) 3) eqn:E.
    + rewrite string_length_app. simpl. lia.
    + apply Nat.ltb_ge in E. exact E.
  - unfold generateUniqueUsername. fold b.
    destruct (taken b); cbn [negb].
    + destruct (try_suffixes taken b (firstn 10 draws)) as [c|] eqn:E.
      * apply try_suffixes_some in E as (d & _ & -> & _). exists (Itoa (d + 1)). reflexivity.
      * exists (Itoa timestamp). reflexivity.
    + exists "". clear. induction b as [|c s IH]; simpl; [reflexivity|]. rewrite <- IH. reflexivity.
Qed.

(** How generateUniqueUsername chooses, for an ASCII base name: the
    cleaned base when it is free; otherwise the first of the ten candidates
    [base ++ Itoa (d + 1)] that is free; when all ten are taken,
    [base ++ FormatInt(timestamp)], which is returned without checking
    whether it is taken. *)
Theorem username_choice taken draws timestamp baseUsername :
  string_forall is_ascii_char baseUsername = true ->
  let b := clean_username baseUsername in
  let r := generateUniqueUsername taken draws timestamp baseUsername in
  (taken b = false /\ r = b) \/
  (taken b = true /\ taken r = false /\
     exists d, In d (firstn 10 draws) /\ r = b ++ Itoa (d + 1)) \/
  (taken b = true /\ r = b ++ Itoa timestamp /\
     forall d, In d (firstn 10 draws) -> taken (b ++ Itoa (d + 1)) = true).
Proof.
  intros _ b r. unfold r, generateUniqueUsername. fold b.
  destruct (taken b) eqn:Hb; cbn [negb]; [|left; auto].
  right. destruct (try_suffixes taken b (firstn 10 draws)) as [c|] eqn:E.
  - left. apply try_suffixes_some in E as (d & Hin & -> & Ht).
    split; [reflexivity|split; [exact Ht|]]. exists d. split; [exact Hin|reflexivity].
  - right. split; [reflexivity|split; [reflexivity|]]. apply try_suffixes_none; exact E.
Qed.

(* ------------------------------------------------------------------ *)
(** * Witnesses of the listing, deletion, registration and username
    theorems *)

Definition demo_ops : list ApiOp :=
  [ApiCreate [Some demo_bytes] false (Some demo_user) demo_request].
Definition demo_redeemed_ops : list ApiOp :=
  (demo_ops ++ [ApiRedeem no_faults demo_code 10%nat "unknown" "unknown"])%list.
Definition other_user : AuthUser := mkAuthUser 8 false.
Definition demo_register_nocode : RegisterRequest :=
  mkRegisterRequest "bob@example.org" "secret" "".

Lemma paging_normalization_witness :
  1 <= 1 /\ 10 = 10 /\ 0 = (1 - 1) * 10 /\ 40 = (3 - 1) * 20.
Proof.
  pose proof (paging_normalization 0 500) as H0.
  pose proof (paging_normalization 3 20) as H1.
  change (normalize_paging 0 500) with (1, 10, 0) in H0.
  change (normalize_paging 3 20) with (3, 20, 40) in H1.
  cbv beta iota in H0, H1.
  destruct H0 as (Hp & _ & _ & _ & _ & Hl & Ho0).
  destruct H1 as (_ & _ & _ & _ & _ & _ & Ho1).
  split; [exact Hp|split; [apply Hl; lia|split]].
  - apply Ho0. unfold int64_max. lia.
  - apply Ho1. unfold int64_max. lia.
Defined.

Lemma paging_overflow_returns_first_page_witness :
  exists page, 1 < page <= int64_max /\
    snd (normalize_paging page 2) < 0 /\
    lp_page (ListAllInviteCodesHandler demo_db page 2) = page /\
    lp_data (ListAllInviteCodesHandler demo_db page 2) =
    lp_data (ListAllInviteCodesHandler demo_db 1 2).
Proof. apply (paging_overflow_returns_first_page demo_db 2). lia. Defined.

Lemma my_invite_codes_listing_witness :
  exists p, GetMyInviteCodesHandler demo_db (Some demo_user) 1 10 = Some p /\
    (List.length (lp_data p) <= Z.to_nat (lp_limit p))%nat /\ lp_total p = 1%nat.
Proof.
  eexists. split; [reflexivity|].
  destruct (proj2 (my_invite_codes_listing demo_db (Some demo_user) 1 10) demo_user _
              eq_refl eq_refl) as (_ & Hl & _ & Ht).
  split; [exact Hl|]. rewrite Ht. reflexivity.
Defined.

Lemma delete_then_not_found_witness :
  let db := run_api demo_ops empty_db in
  let db' := snd (DeleteInviteCode no_faults db 1) in
  fst (DeleteInviteCode no_faults db 1) = Ok tt /\
  ValidateInviteCode no_faults db' demo_code = Err ErrNotFound.
Proof.
  assert (Hr : first_by_id (run_api demo_ops empty_db) 1 = Some demo_row)
    by (vm_compute; reflexivity).
  destruct (delete_then_not_found demo_ops no_faults 1%nat demo_row eq_refl Hr)
    as (H1 & H2 & _).
  split; [exact H1|]. apply (H2 no_faults). reflexivity.
Defined.

Lemma handlers_enforce_ownership_witness :
  DeleteInviteCodeHandler no_faults no_faults demo_db (Some other_user) 1 = (DelForbidden, demo_db) /\
  GetInviteCodeUsagesHandler no_faults demo_db (Some other_user) 1 1 10 = UsagesForbidden.
Proof.
  destruct (handlers_enforce_ownership no_faults no_faults no_faults demo_db (Some other_user)
              1%nat InviteCodeStatusDisabled 1 10 eq_refl) as (_ & _ & H3).
  destruct (H3 other_user demo_row eq_refl eq_refl) as (_ & Hd & Hu).
  - cbv. discriminate.
  - reflexivity.
  - split; [exact Hd|exact Hu].
Defined.

Lemma delete_handler_success_witness :
  exists u ic, Some demo_user = Some u /\ first_by_id demo_db 1 = Some ic /\
    (CreatedByID ic = auth_ID u \/ auth_IsAdmin u = true) /\
    soft_delete_code demo_db 1 = soft_delete_code demo_db 1.
Proof.
  apply (proj1 (delete_handler_success no_faults no_faults demo_db (Some demo_user) 1%nat
                  DelSuccess (soft_delete_code demo_db 1) ltac:(vm_compute; reflexivity))).
  reflexivity.
Defined.

Lemma usages_listing_matches_count_witness :
  exists p, GetInviteCodeUsagesHandler no_faults (run_api demo_redeemed_ops empty_db)
              (Some demo_user) 1 1 10 = UsagesSuccess p /\
    exists ic, first_by_id (run_api demo_redeemed_ops empty_db) 1 = Some ic /\
      Z.of_nat (lp_total p) = UsedCount ic.
Proof.
  eexists. split; [reflexivity|].
  destruct (usages_listing_matches_count demo_redeemed_ops no_faults (Some demo_user) 1%nat 1 10
              _ eq_refl) as (u & ic & _ & Hic & _ & Ht & _).
  exists ic. split; [exact Hic|exact Ht].
Defined.

Lemma sequential_redemptions_exact_witness :
  exists oks,
    fst (redeem_all demo_db demo_code [10; 11; 12]%nat) =
      (map Ok oks ++ repeat (Err ErrExhausted) 2)%list /\
    List.length oks = 1%nat.
Proof.
  destruct (sequential_redemptions_exact demo_db demo_code demo_row [10; 11; 12]%nat
              eq_refl eq_refl ltac:(simpl; lia)) as (oks & H1 & H2 & _).
  exists oks. split; [exact H1|exact H2].
Defined.

Lemma register_early_errors_write_nothing_witness :
  snd (Register auth_ok no_faults no_faults demo_used_db demo_register) = demo_used_db.
Proof.
  apply (register_early_errors_write_nothing auth_ok no_faults no_faults demo_used_db
           demo_register (RegInvalidInviteCode ErrExhausted)).
  - vm_compute. reflexivity.
  - discriminate.
Defined.

Lemma register_token_failure_keeps_writes_witness :
  In (mkUser 1 "ann@example.org" (Some 1%nat) (Some demo_code))
     (users (snd (Register (mkAuthFaults false false true) no_faults no_faults demo_db
                   demo_register))).
Proof.
  apply (proj2 (register_token_failure_keeps_writes (mkAuthFaults false false true)
                  no_faults no_faults demo_db demo_register
                  (mkUser 1 "ann@example.org" (Some 1%nat) (Some demo_code))
                  eq_refl ltac:(vm_compute; reflexivity))).
Defined.

Lemma register_without_code_witness :
  invite_codes (snd (Register auth_ok no_faults no_faults demo_db demo_register_nocode)) =
    invite_codes demo_db.
Proof. apply (proj1 (register_without_code auth_ok no_faults no_faults demo_db
                       demo_register_nocode eq_refl)). Defined.

Lemma register_with_code_redeems_witness :
  exists u usage db',
    Register auth_ok no_faults no_faults demo_db demo_register = (RegOk u, db') /\
    first_by_code db' demo_code = Some (bump demo_row) /\
    invite_code_usages db' = [usage] /\ UsedByID usage = user_ID u.
Proof.
  destruct (register_with_code_redeems auth_ok demo_db demo_register demo_row)
    as (u & usage & db' & H1 & _ & _ & _ & _ & H6 & H7 & _ & H9).
  - vm_compute. discriminate.
  - vm_compute. reflexivity.
  - reflexivity.
  - reflexivity.
  - reflexivity.
  - reflexivity.
  - reflexivity.
  - exists u, usage, db'. split; [exact H1|split; [exact H6|split; [exact H7|exact H9]]].
Defined.

Lemma EncodeToString_injective_witness : repeat Byte.x1f 16 = demo_bytes.
Proof. apply EncodeToString_injective. reflexivity. Defined.

Lemma username_shape_witness :
  (3 <= String.length (clean_username "A.B"))%nat /\
  exists suffix, generateUniqueUsername (fun s => String.eqb s "abuser") [41] 1700000000 "A.B" =
                 clean_username "A.B" ++ suffix.
Proof.
  destruct (username_shape (fun s => String.eqb s "abuser") [41] 1700000000 "A.B" eq_refl)
    as (_ & _ & Hl & Hs).
  split; [exact Hl|exact Hs].
Defined.

Lemma username_choice_witness :
  generateUniqueUsername (fun _ => true) [1; 2] 1700000000 "bob" = "bob1700000000".
Proof.
  destruct (username_choice (fun _ => true) [1; 2] 1700000000 "bob" eq_refl)
    as [[H _]|[[_ [H _]]|[_ [H _]]]].
  - discriminate H.
  - discriminate H.
  - rewrite H. reflexivity.
Defined.

(* ------------------------------------------------------------------ *)
(** * GetInviteCode and ValidateInviteCode through their handlers *)

(** model.InviteCodeResponse (timestamps and the creator left out); the
    usage records are the model.InviteCodeUsageResponse rows, which copy
    the fields of the usage rows. *)
Record InviteCodeResponse := mkInviteCodeResponse {
  resp_ID : nat;
  resp_Code : string;
  resp_CreatedByID : nat;
  resp_Status : string;
  resp_MaxUses : Z;
  resp_UsedCount : Z;
  resp_Description : string;
  resp_UsageRecords : list InviteCodeUsage
}.

(** InviteCode.ToResponse; [usageRecords] is the relation loaded into
    [ic.UsageRecords]. *)
Definition ToResponse (ic : InviteCode) (usageRecords : list InviteCodeUsage)
  : InviteCodeResponse :=
  mkInviteCodeResponse (ic_ID ic) (Code ic) (CreatedByID ic) (Status ic)
    (MaxUses ic) (UsedCount ic) (Description ic) usageRecords.

(** InviteCode.ToPublicResponse: the fields left out are zero values. *)
Definition ToPublicResponse (ic : InviteCode) : InviteCodeResponse :=
  mkInviteCodeResponse 0 (Code ic) 0 (Status ic) (MaxUses ic) (UsedCount ic)
    (Description ic) [].

(** InviteCodeService.GetInviteCodeByIDWithRelations: the scoped
    [First(&ic, id)], then the usage records of the code ordered by
    used_at DESC; when that second query fails ([rel_fails]) the
    relation stays empty and the code is still returned. *)
Definition GetInviteCodeByIDWithRelations (f : StoreFaults) (rel_fails : bool) (db : DB)
    (id : nat) : result (InviteCode * list InviteCodeUsage) :=
  if read_fails f then Err ErrGetFailed
  else match first_by_id db id with
       | None => Err ErrNotFound
       | Some ic =>
           Ok (ic, if rel_fails then []
                   else newest_first (filter (fun u => Nat.eqb (InviteCodeID u) id)
                                             (invite_code_usages db)))
       end.

Inductive GetResponse :=
| GetUnauthorized
| GetNotFound
| GetForbidden
| GetSuccess (r : InviteCodeResponse).

(** InviteCodeHandler.GetInviteCode, from the parsed id on. *)
Definition GetInviteCodeHandler (f : StoreFaults) (rel_fails : bool) (db : DB)
    (user : option AuthUser) (id : nat) : GetResponse :=
  match user with
  | None => GetUnauthorized
  | Some u =>
      match GetInviteCodeByIDWithRelations f rel_fails db id with
      | Err _ => GetNotFound
      | Ok (ic, usageRecords) =>
          if negb (Nat.eqb (CreatedByID ic) (auth_ID u)) && negb (auth_IsAdmin u)
          then GetForbidden
          else GetSuccess (ToResponse ic usageRecords)
      end
  end.

Inductive ValidateResponse :=
| ValBadRequest
| ValNotFound (e : ServiceError)
| ValSuccess (r : InviteCodeResponse).

(** InviteCodeHandler.ValidateInviteCode (a public route). *)
Definition ValidateInviteCodeHandler (f : StoreFaults) (db : DB) (code : string)
  : ValidateResponse :=
  if String.eqb code "" then ValBadRequest
  else match ValidateInviteCode f db code with
       | Err e => ValNotFound e
       | Ok ic => ValSuccess (ToPublicResponse ic)
       end.

(** The public ValidateInviteCode route answers with success only for a
    live code that can be used, with the code asked for, status active and
    usedCount below maxUses; its answer hides the key, the creator and the
    usage records (zero values). *)
Theorem validate_handler_public f db code r :
  ValidateInviteCodeHandler f db code = ValSuccess r ->
  resp_ID r = 0%nat /\ resp_CreatedByID r = 0%nat /\ resp_UsageRecords r = [] /\
  exists ic, first_by_code db code = Some ic /\ CanBeUsed ic = true /\
    resp_Code r = code /\ resp_Status r = InviteCodeStatusActive /\
    resp_UsedCount r < resp_MaxUses r /\ resp_Description r = Description ic.
Proof.
  unfold ValidateInviteCodeHandler, ValidateInviteCode, GetInviteCodeByCode.
  destruct (String.eqb code ""); [discriminate|].
  destruct (read_fails f); [discriminate|].
  destruct (first_by_code db code) as [ic|] eqn:Hf; [|discriminate].
  destruct (CanBeUsed ic) eqn:Hc; cbn [negb];
    [|destruct (IsExhausted ic); discriminate].
  intros E; injection E as <-.
  destruct (first_by_code_some _ _ _ Hf) as (_ & Hcode & _).
  split; [reflexivity|split; [reflexivity|split; [reflexivity|]]].
  exists ic. cbn. split; [reflexivity|split; [exact Hc|split; [exact Hcode|]]].
  unfold CanBeUsed, IsActive in Hc.
  destruct (String.eqb (Status ic) InviteCodeStatusActive) eqn:Hs; [|discriminate].
  destruct (UsedCount ic >=? MaxUses ic) eqn:Hu; [discriminate|].
  apply String.eqb_eq in Hs. rewrite Z.geb_leb in Hu. apply Z.leb_gt in Hu.
  split; [exact Hs|split; [exact Hu|reflexivity]].
Qed.

(** GetInviteCode answers with success only to the creator of a live code
    or to an admin, with that code's row; after any sequence of API calls
    from the empty store, when the usage query succeeds the usage records
    it returns are exactly the usedCount ledger rows of the code. *)
Theorem get_handler_full_usages ops f rel_fails user id r :
  let db := run_api ops empty_db in
  GetInviteCodeHandler f rel_fails db user id = GetSuccess r ->
  exists u ic, user = Some u /\ first_by_id db id = Some ic /\
    (CreatedByID ic = auth_ID u \/ auth_IsAdmin u = true) /\
    r = ToResponse ic (resp_UsageRecords r) /\ resp_ID r = id /\
    (forall x, In x (resp_UsageRecords r) -> InviteCodeID x = id /\ In x (invite_code_usages db)) /\
    (rel_fails = false -> Z.of_nat (List.length (resp_UsageRecords r)) = resp_UsedCount r).
Proof.
  intros db E.
  destruct (reachable_ok_run_api ops) as (_ & _ & (_ & _ & Hl) & _). fold db in Hl.
  unfold GetInviteCodeHandler, GetInviteCodeByIDWithRelations in E.
  destruct user as [u|]; [|discriminate].
  destruct (read_fails f); [discriminate|].
  destruct (first_by_id db id) as [ic|] eqn:Hf; [|discriminate].
  destruct (negb (Nat.eqb (CreatedByID ic) (auth_ID u)) && negb (auth_IsAdmin u)) eqn:Ho;
    [discriminate|].
  injection E as <-.
  destruct (first_by_id_some _ _ _ Hf) as (Hin & Hid & _).
  exists u, ic. split; [reflexivity|split; [reflexivity|split; [|split; [reflexivity|split]]]].
  - apply andb_false_iff in Ho as [Ho|Ho]; apply negb_false_iff in Ho;
      [left; apply Nat.eqb_eq; exact Ho|right; exact Ho].
  - exact Hid.
  - split.
    + intros x Hx. cbn in Hx. destruct rel_fails; [destruct Hx|].
      unfold newest_first in Hx; apply in_rev in Hx.
      apply filter_In in Hx as [Hx Hc]; apply Nat.eqb_eq in Hc; auto.
    + intros ->. cbn. unfold newest_first. rewrite length_rev.
      rewrite <- (Hl ic Hin), Hid. reflexivity.
Qed.

Lemma validate_handler_public_witness :
  resp_ID (ToPublicResponse demo_row) = 0%nat /\
  resp_CreatedByID (ToPublicResponse demo_row) = 0%nat.
Proof.
  destruct (validate_handler_public no_faults demo_db demo_code (ToPublicResponse demo_row))
    as (H1 & H2 & _).
  - vm_compute. reflexivity.
  - split; [exact H1|exact H2].
Defined.

Lemma get_handler_full_usages_witness :
  exists r, GetInviteCodeHandler no_faults false (run_api demo_redeemed_ops empty_db)
              (Some demo_user) 1 = GetSuccess r /\
    Z.of_nat (List.length (resp_UsageRecords r)) = resp_UsedCount r.
Proof.
  eexists. split; [reflexivity|].
  destruct (get_handler_full_usages demo_redeemed_ops no_faults false (Some demo_user) 1%nat
              _ eq_refl) as (u & ic & _ & _ & _ & _ & _ & _ & H).
  exact (H eq_refl).
Defined.
